(** * AI Chess Master: the move-decision engine of [ChessGame]

    A shallow embedding of the search-and-evaluation pipeline of the
    [ChessGame] component: [evaluateBoard], [minimax], [isEndgame],
    [getEndgameBonus] and [makeAIMove], together with the tables they read.

    The rules engine ([chess.js]) is an external collaborator.  It is taken
    as a parameter: a record of the operations the component calls on a
    [Chess] object, and a record of the laws a rules-correct engine obeys.
    The component mutates one live [Chess] object; that object and a ghost
    trace of the calls made on it are threaded through a small state and
    exception monad. *)

From Stdlib Require Import ZArith List String Ascii Bool Arith Lia DecimalString.
Import ListNotations.
Local Open Scope string_scope.
Local Open Scope Z_scope.
Local Open Scope list_scope.

(** ** Data model *)

(** [types.ts]: [type Difficulty = 'easy' | 'intermediate' | 'hard']. *)
Inductive Difficulty : Type := easy | intermediate | hard.

(** chess.js colours ['w'] and ['b']. *)
Inductive Color : Type := White | Black.

(** chess.js piece symbols ['p' 'n' 'b' 'r' 'q' 'k']. *)
Inductive PieceSymbol : Type := Pawn | Knight | Bishop | Rook | Queen | King.

(** What [get(square)] and the cells of [board()] hold. *)
Record Piece : Type := mkPiece { color : Color; type : PieceSymbol }.

Definition isWhite (c : Color) : bool :=
  match c with White => true | Black => false end.

Definition isPawn (t : PieceSymbol) : bool :=
  match t with Pawn => true | _ => false end.

(** [const difficultyDepth = { easy: 1, intermediate: 2, hard: 3 }]. *)
Definition difficultyDepth (difficulty : Difficulty) : nat :=
  match difficulty with
  | easy => 1%nat
  | intermediate => 2%nat
  | hard => 3%nat
  end.

Record Opening : Type := mkOpening { name : string; openingLine : list string }.

(** [const openingMoves]: the opening lines by difficulty, in SAN. *)
Definition openingMoves (difficulty : Difficulty) : list Opening :=
  match difficulty with
  | easy =>
      [ mkOpening "King's Pawn" ["e4"; "e5"];
        mkOpening "Queen's Pawn" ["d4"; "d5"];
        mkOpening "English Opening" ["c4"] ]
  | intermediate =>
      [ mkOpening "Ruy Lopez" ["e4"; "e5"; "Nf3"; "Nc6"; "Bb5"];
        mkOpening "Sicilian Defense" ["e4"; "c5"];
        mkOpening "French Defense" ["e4"; "e6"] ]
  | hard =>
      [ mkOpening "Queen's Gambit" ["d4"; "d5"; "c4"];
        mkOpening "King's Indian Defense" ["d4"; "Nf6"; "c4"; "g6"];
        mkOpening "Caro-Kann Defense" ["e4"; "c6"] ]
  end.

Record EndgamePattern : Type :=
  mkPattern { pattern : string; pieces : list string }.

(** [const endgamePatterns]: the endgame patterns by difficulty. *)
Definition endgamePatterns (difficulty : Difficulty) : list EndgamePattern :=
  match difficulty with
  | easy =>
      [ mkPattern "rook_king_mate" ["k"; "r"; "K"];
        mkPattern "queen_mate" ["k"; "q"; "K"] ]
  | intermediate =>
      [ mkPattern "two_bishops_mate" ["k"; "b"; "b"; "K"];
        mkPattern "rook_bishop_mate" ["k"; "r"; "b"; "K"] ]
  | hard =>
      [ mkPattern "queen_knight_mate" ["k"; "q"; "n"; "K"];
        mkPattern "rook_knight_mate" ["k"; "r"; "n"; "K"] ]
  end.

(** ** The rules engine *)

(** [move] takes a SAN string ([position.move(move)] in [minimax], the
    opening book, the endgame simulation) or a move object of
    [moves({ verbose: true })] ([game.move(move)] in [makeAIMove]). *)
Inductive MoveArg (Move : Type) : Type :=
| BySan (s : string)
| ByObject (m : Move).
Arguments BySan {Move} s.
Arguments ByObject {Move} m.

(** The operations of a [Chess] object that the component calls.  [move]
    answers [None] where chess.js rejects the move (it throws; the callers
    that expect a rejection wrap the call in [try]/[catch]).  [fen] and
    [load] stand for [position.fen()] and [new Chess(fen)]. *)
Class RulesEngine : Type := {
  Chess : Type;
  Move : Type;
  Fen : Type;
  san : Move -> string;
  moves : Chess -> list Move;
  move : Chess -> MoveArg Move -> option (Move * Chess);
  undo : Chess -> Chess;
  get : Chess -> string -> option Piece;
  board : Chess -> list (list (option Piece));
  isCheck : Chess -> bool;
  isCheckmate : Chess -> bool;
  isDraw : Chess -> bool;
  isGameOver : Chess -> bool;
  fen : Chess -> Fen;
  load : Fen -> Chess
}.

(** What the component relies on from a rules-correct engine: an
    enumerated move is accepted, as an object and by its SAN; an accepted
    move is one of the enumeration; [undo] takes back the last accepted
    move; and a copy made through FEN has the moves of the original. *)
Record Lawful (E : RulesEngine) : Prop := {
  move_enumerated :
    forall g m, In m (moves g) ->
      exists g', move g (ByObject m) = Some (m, g')
                 /\ move g (BySan (san m)) = Some (m, g');
  move_sound :
    forall g a m g', move g a = Some (m, g') -> In m (moves g);
  undo_move :
    forall g a m g', move g a = Some (m, g') -> undo g' = g;
  load_fen_moves :
    forall g, moves (load (fen g)) = moves g
}.

(** ** The evaluator *)

Section Evaluator.
Context {E : RulesEngine}.

(** [const pieceValues] of [evaluateBoard]. *)
Definition pieceValues (t : PieceSymbol) : Z :=
  match t with
  | Pawn => 100
  | Knight => 320
  | Bishop => 330
  | Rook => 500
  | Queen => 900
  | King => 20000
  end.

(** [const pawnPositionBonus] of [evaluateBoard]. *)
Definition pawnPositionBonus : list (list Z) :=
  [ [0;  0;  0;  0;  0;  0;  0;  0];
    [50; 50; 50; 50; 50; 50; 50; 50];
    [10; 10; 20; 30; 30; 20; 10; 10];
    [5;  5; 10; 25; 25; 10;  5;  5];
    [0;  0;  0; 20; 20;  0;  0;  0];
    [5; -5;-10;  0;  0;-10; -5;  5];
    [5; 10; 10;-20;-20; 10; 10;  5];
    [0;  0;  0;  0;  0;  0;  0;  0] ].

(** [table[row][col]]. *)
Definition at2 (table : list (list Z)) (row col : nat) : Z :=
  nth col (nth row table []) 0.

(** [String.fromCharCode(97 + i) + (j + 1)]. *)
Definition squareName (i j : nat) : string :=
  String (ascii_of_nat (97 + i))
         (NilEmpty.string_of_uint (Nat.to_uint (j + 1))).

(** The body of the two nested loops of [evaluateBoard], at file [i] and
    rank index [j]. *)
Definition evaluateSquare (position : Chess) (total : Z) (i j : nat) : Z :=
  match get position (squareName i j) with
  | Some piece =>
      let value := pieceValues (type piece) in
      let value :=
        if isPawn (type piece)
        then value + at2 pawnPositionBonus
                         (if isWhite (color piece) then 7 - j else j) i
        else value in
      total + value * (if isWhite (color piece) then 1 else -1)
  | None => total
  end.

(** [evaluateBoard(position)]. *)
Definition evaluateBoard (position : Chess) : Z :=
  let total := 0 in
  let total :=
    fold_left
      (fun total i =>
         fold_left (fun total j => evaluateSquare position total i j)
                   (seq 0 8) total)
      (seq 0 8) total in
  let total := if isCheck position then total + 50 else total in
  let total := if isCheckmate position then total + 10000 else total in
  let total := if isDraw position then total + 0 else total in
  total.

(** *** The terms of one square *)

Definition sign (c : Color) : Z :=
  match c with White => 1 | Black => -1 end.

(** The rank of a square counted from the owner's side of the board
    (0 for the owner's back rank), [j] being the rank index from White's
    side. *)
Definition ownRank (c : Color) (j : nat) : nat :=
  match c with White => j | Black => (7 - j)%nat end.

(** The piece-square table read by file and by rank from the owner's
    perspective: the printed table lists the owner's eighth rank first. *)
Definition pawnTable (file rank : nat) : Z :=
  at2 pawnPositionBonus (7 - rank) file.

(** Sum of [f] over a list. *)
Definition sumOver {A : Type} (f : A -> Z) (l : list A) : Z :=
  fold_right (fun x acc => f x + acc) 0 l.

(** The 64 squares, rank by rank, as (file, rank index) pairs. *)
Definition allSquares : list (nat * nat) :=
  flat_map (fun j => map (fun i => (i, j)) (seq 0 8)) (seq 0 8).

Definition materialTerm (position : Chess) (sq : nat * nat) : Z :=
  match get position (squareName (fst sq) (snd sq)) with
  | Some piece => pieceValues (type piece) * sign (color piece)
  | None => 0
  end.

Definition pawnTerm (position : Chess) (sq : nat * nat) : Z :=
  match get position (squareName (fst sq) (snd sq)) with
  | Some piece =>
      if isPawn (type piece)
      then pawnTable (fst sq) (ownRank (color piece) (snd sq))
           * sign (color piece)
      else 0
  | None => 0
  end.

(** *** Section 4.2 of the specification, in its own words

    The constants, the table and the squares below are written out here
    and owe nothing to the definitions of [evaluateBoard] above. *)

(** The piece values: pawn 100, knight 320, bishop 330, rook 500,
    queen 900, king 20000. *)
Definition specPieceValue (t : PieceSymbol) : Z :=
  match t with
  | Pawn => 100
  | Knight => 320
  | Bishop => 330
  | Rook => 500
  | Queen => 900
  | King => 20000
  end.

(** The pawn table by rank from the owner's perspective, the owner's
    back rank first, and by file from a to h within a rank. *)
Definition specPawnTable : list (list Z) :=
  [ [0;  0;  0;  0;  0;  0;  0;  0];
    [5; 10; 10;-20;-20; 10; 10;  5];
    [5; -5;-10;  0;  0;-10; -5;  5];
    [0;  0;  0; 20; 20;  0;  0;  0];
    [5;  5; 10; 25; 25; 10;  5;  5];
    [10; 10; 20; 30; 30; 20; 10; 10];
    [50; 50; 50; 50; 50; 50; 50; 50];
    [0;  0;  0;  0;  0;  0;  0;  0] ].

Definition specPawnBonus (file rank : nat) : Z :=
  nth file (nth rank specPawnTable []) 0.

(** The 64 squares by name, each with its file (0 for a) and its rank
    counted from White's side (0 for the first rank). *)
Definition specSquares : list (string * (nat * nat)) :=
  [
    ("a1", (0, 0)%nat); ("b1", (1, 0)%nat); ("c1", (2, 0)%nat); ("d1", (3, 0)%nat);
    ("e1", (4, 0)%nat); ("f1", (5, 0)%nat); ("g1", (6, 0)%nat); ("h1", (7, 0)%nat);
    ("a2", (0, 1)%nat); ("b2", (1, 1)%nat); ("c2", (2, 1)%nat); ("d2", (3, 1)%nat);
    ("e2", (4, 1)%nat); ("f2", (5, 1)%nat); ("g2", (6, 1)%nat); ("h2", (7, 1)%nat);
    ("a3", (0, 2)%nat); ("b3", (1, 2)%nat); ("c3", (2, 2)%nat); ("d3", (3, 2)%nat);
    ("e3", (4, 2)%nat); ("f3", (5, 2)%nat); ("g3", (6, 2)%nat); ("h3", (7, 2)%nat);
    ("a4", (0, 3)%nat); ("b4", (1, 3)%nat); ("c4", (2, 3)%nat); ("d4", (3, 3)%nat);
    ("e4", (4, 3)%nat); ("f4", (5, 3)%nat); ("g4", (6, 3)%nat); ("h4", (7, 3)%nat);
    ("a5", (0, 4)%nat); ("b5", (1, 4)%nat); ("c5", (2, 4)%nat); ("d5", (3, 4)%nat);
    ("e5", (4, 4)%nat); ("f5", (5, 4)%nat); ("g5", (6, 4)%nat); ("h5", (7, 4)%nat);
    ("a6", (0, 5)%nat); ("b6", (1, 5)%nat); ("c6", (2, 5)%nat); ("d6", (3, 5)%nat);
    ("e6", (4, 5)%nat); ("f6", (5, 5)%nat); ("g6", (6, 5)%nat); ("h6", (7, 5)%nat);
    ("a7", (0, 6)%nat); ("b7", (1, 6)%nat); ("c7", (2, 6)%nat); ("d7", (3, 6)%nat);
    ("e7", (4, 6)%nat); ("f7", (5, 6)%nat); ("g7", (6, 6)%nat); ("h7", (7, 6)%nat);
    ("a8", (0, 7)%nat); ("b8", (1, 7)%nat); ("c8", (2, 7)%nat); ("d8", (3, 7)%nat);
    ("e8", (4, 7)%nat); ("f8", (5, 7)%nat); ("g8", (6, 7)%nat); ("h8", (7, 7)%nat) ].

(** Item 1: the value of the piece on the square, signed by colour. *)
Definition specMaterial (position : Chess) (sq : string * (nat * nat)) : Z :=
  match get position (fst sq) with
  | Some piece => specPieceValue (type piece) * sign (color piece)
  | None => 0
  end.

(** Item 2: for a pawn, the table bonus at its file and at its rank from
    its own side, signed like material. *)
Definition specPawn (position : Chess) (sq : string * (nat * nat)) : Z :=
  match get position (fst sq) with
  | Some piece =>
      match type piece with
      | Pawn =>
          specPawnBonus (fst (snd sq))
                        (ownRank (color piece) (snd (snd sq)))
          * sign (color piece)
      | _ => 0
      end
  | None => 0
  end.

(** Items 1 to 5: material, pawn table, the flat check and checkmate
    terms, and nothing for a draw. *)
Definition evaluateSpec (position : Chess) : Z :=
  sumOver (specMaterial position) specSquares
  + sumOver (specPawn position) specSquares
  + (if isCheck position then 50 else 0)
  + (if isCheckmate position then 10000 else 0)
  + (if isDraw position then 0 else 0).

End Evaluator.

(** ** The live position and the calls made on it *)

(** Ghost events, in call order: a move accepted on the live position, an
    [undo] of the live position, a call of [evaluateBoard], and a move
    tried on a private copy by [getEndgameBonus]. *)
Inductive Event : Type :=
| EvMove (s : string)
| EvUndo
| EvEvaluate
| EvSimulate (s : string).

Section Engine.
Context {E : RulesEngine}.

(** The one [Chess] object the component shares ([game], passed to
    [minimax] as [position]) and the trace of the calls made so far. *)
Record World : Type := mkWorld { live : Chess; trace : list Event }.

(** A computation ends normally with a value, or with an exception thrown
    by the rules engine. *)
Inductive Res (A : Type) : Type :=
| Ok (a : A) (w : World)
| Throw (w : World).
Arguments Ok {A} a w.
Arguments Throw {A} w.

Definition M (A : Type) : Type := World -> Res A.

Definition ret {A : Type} (a : A) : M A := fun w => Ok a w.

Definition bind {A B : Type} (c : M A) (k : A -> M B) : M B :=
  fun w => match c w with
           | Ok a w' => k a w'
           | Throw w' => Throw w'
           end.

Notation "x <- c ;; k" := (bind c (fun x => k))
  (at level 61, c at next level, right associativity).
Notation "c ;; k" := (bind c (fun _ => k))
  (at level 61, right associativity).

(** [try { body } catch (e) { handler }]. *)
Definition tryCatch {A : Type} (body handler : M A) : M A :=
  fun w => match body w with
           | Ok a w' => Ok a w'
           | Throw w' => handler w'
           end.

Definition emit (e : Event) : M unit :=
  fun w => Ok tt (mkWorld (live w) (trace w ++ [e])).

(** The shared object, read. *)
Definition getLive : M Chess := fun w => Ok (live w) w.

(** [position.move(a)] on the live position; a rejected move throws and
    leaves the position as it was. *)
Definition positionMove (a : MoveArg Move) : M Move :=
  fun w => match move (live w) a with
           | Some (m, g') => Ok m (mkWorld g' (trace w ++ [EvMove (san m)]))
           | None => Throw w
           end.

(** [position.undo()] on the live position. *)
Definition positionUndo : M unit :=
  fun w => Ok tt (mkWorld (undo (live w)) (trace w ++ [EvUndo])).

(** ** The search *)

(** The maximizing loop of [minimax]; [recurse] is the call
    [minimax(position, depth - 1, false, alpha, beta)]. *)
Fixpoint forMax (recurse : Z -> Z -> M Z) (possibleMoves : list string)
         (maxEval alpha beta : Z) : M Z :=
  match possibleMoves with
  | [] => ret maxEval
  | move :: rest =>
      positionMove (BySan move) ;;
      evaluation <- recurse alpha beta ;;
      positionUndo ;;
      let maxEval := Z.max maxEval evaluation in
      let alpha := Z.max alpha evaluation in
      if beta <=? alpha then ret maxEval
      else forMax recurse rest maxEval alpha beta
  end.

(** The minimizing loop of [minimax]; [recurse] is the call
    [minimax(position, depth - 1, true, alpha, beta)]. *)
Fixpoint forMin (recurse : Z -> Z -> M Z) (possibleMoves : list string)
         (minEval alpha beta : Z) : M Z :=
  match possibleMoves with
  | [] => ret minEval
  | move :: rest =>
      positionMove (BySan move) ;;
      evaluation <- recurse alpha beta ;;
      positionUndo ;;
      let minEval := Z.min minEval evaluation in
      let beta := Z.min beta evaluation in
      if beta <=? alpha then ret minEval
      else forMin recurse rest minEval alpha beta
  end.

(** [minimax(position, depth, maximizingPlayer, alpha, beta)];
    [position] is the live object. *)
Fixpoint minimax (depth : nat) (maximizingPlayer : bool) (alpha beta : Z)
         {struct depth} : M Z :=
  match depth with
  | O =>
      position <- getLive ;;
      emit EvEvaluate ;;
      ret (evaluateBoard position)
  | S depth' =>
      position <- getLive ;;
      let possibleMoves := map san (moves position) in
      if maximizingPlayer
      then forMax (minimax depth' false) possibleMoves (-9999) alpha beta
      else forMin (minimax depth' true) possibleMoves 9999 alpha beta
  end.

(** *** Exhaustive minimax: the same search with pruning disabled *)

(** The maximizing loop without the [break]. *)
Fixpoint allMax (recurse : M Z) (possibleMoves : list string)
         (maxEval : Z) : M Z :=
  match possibleMoves with
  | [] => ret maxEval
  | move :: rest =>
      positionMove (BySan move) ;;
      evaluation <- recurse ;;
      positionUndo ;;
      allMax recurse rest (Z.max maxEval evaluation)
  end.

(** The minimizing loop without the [break]. *)
Fixpoint allMin (recurse : M Z) (possibleMoves : list string)
         (minEval : Z) : M Z :=
  match possibleMoves with
  | [] => ret minEval
  | move :: rest =>
      positionMove (BySan move) ;;
      evaluation <- recurse ;;
      positionUndo ;;
      allMin recurse rest (Z.min minEval evaluation)
  end.

(** Depth-limited minimax over every legal move: [minimax] with the two
    [if (beta <= alpha) break] removed (the bounds then play no part). *)
Fixpoint exhaustiveMinimax (depth : nat) (maximizingPlayer : bool)
         {struct depth} : M Z :=
  match depth with
  | O =>
      position <- getLive ;;
      emit EvEvaluate ;;
      ret (evaluateBoard position)
  | S depth' =>
      position <- getLive ;;
      let possibleMoves := map san (moves position) in
      if maximizingPlayer
      then allMax (exhaustiveMinimax depth' false) possibleMoves (-9999)
      else allMin (exhaustiveMinimax depth' true) possibleMoves 9999
  end.

(** ** The endgame heuristic *)

(** [isEndgame(position)]: at most 10 pieces on the board. *)
Definition isEndgame (position : Chess) : bool :=
  let pieces :=
    filter (fun piece => match piece with Some _ => true | None => false end)
           (List.concat (board position)) in
  (List.length pieces <=? 10)%nat.

(** [s.includes(sub)]. *)
Fixpoint includes (s sub : string) : bool :=
  if prefix sub s then true
  else match s with
       | EmptyString => false
       | String _ s' => includes s' sub
       end.

Definition centralSquares : list string := ["d4"; "d5"; "e4"; "e5"].

(** The [try] block of one pattern once [tempGame.move] has succeeded. *)
Definition patternBonus (pat : EndgamePattern) (tempGame : Chess)
           (bonus : Z) : Z :=
  let bonus :=
    if includes (pattern pat) "mate"
    then if isCheckmate tempGame then bonus + 500
         else if isCheck tempGame then bonus + 200
         else bonus
    else bonus in
  fold_left
    (fun bonus square =>
       match get tempGame square with
       | Some piece => if isWhite (color piece) then bonus else bonus + 50
       | None => bonus
       end)
    centralSquares bonus.

(** [patterns.forEach(pattern => ...)]: a private copy of [position] per
    pattern; a rejected move is caught and the pattern skipped. *)
Fixpoint forEachPattern (position : Chess) (moveObj : Move)
         (patterns : list EndgamePattern) (bonus : Z) : M Z :=
  match patterns with
  | [] => ret bonus
  | pat :: rest =>
      let tempGame := load (fen position) in
      emit (EvSimulate (san moveObj)) ;;
      match move tempGame (BySan (san moveObj)) with
      | Some (_, tempGame) =>
          forEachPattern position moveObj rest (patternBonus pat tempGame bonus)
      | None =>
          forEachPattern position moveObj rest bonus
      end
  end.

(** [getEndgameBonus(position, moveObj)]. *)
Definition getEndgameBonus (difficulty : Difficulty) (position : Chess)
           (moveObj : Move) : M Z :=
  if negb (isEndgame position) then ret 0
  else forEachPattern position moveObj (endgamePatterns difficulty) 0.

(** ** The move selector *)

(** How one call of [makeAIMove] ends: game over signalled, the opening
    move played, the searched move played, or no move chosen. *)
Inductive Outcome : Type :=
| GameOver
| BookMove (m : Move)
| SearchMove (m : Move)
| NoMove.

(** The value computed for one candidate in the root loop:
    [game.move(move)], the search plus the endgame bonus, [game.undo()]. *)
Definition rootValue (difficulty : Difficulty) (depth : nat)
           (move : Move) : M Z :=
  positionMove (ByObject move) ;;
  searched <- minimax (depth - 1) false (-10000) 10000 ;;
  game <- getLive ;;
  bonus <- getEndgameBonus difficulty game move ;;
  positionUndo ;;
  ret (searched + bonus).

(** [for (const move of possibleMoves)] of [makeAIMove]. *)
Fixpoint rootLoop (difficulty : Difficulty) (depth : nat)
         (possibleMoves : list Move) (bestMove : option Move)
         (bestValue : Z) : M (option Move) :=
  match possibleMoves with
  | [] => ret bestMove
  | move :: rest =>
      value <- rootValue difficulty depth move ;;
      if value >=? bestValue
      then rootLoop difficulty depth rest (Some move) value
      else rootLoop difficulty depth rest bestMove bestValue
  end.

(** The search part of [makeAIMove]: from [const depth] to the end. *)
Definition searchSelect (difficulty : Difficulty)
           (possibleMoves : list Move) : M Outcome :=
  let depth := difficultyDepth difficulty in
  bestMove <- rootLoop difficulty depth possibleMoves None (-9999) ;;
  match bestMove with
  | Some bestMove =>
      positionMove (ByObject bestMove) ;;
      ret (SearchMove bestMove)
  | None => ret NoMove
  end.

(** The opening-book part of [makeAIMove]: the move played, if any. *)
Definition bookAttempt (moveCount : nat) (selectedOpening : list string)
  : M (option Move) :=
  if (moveCount <? List.length selectedOpening)%nat
  then tryCatch
         (let openingMove := nth moveCount selectedOpening "" in
          played <- positionMove (BySan openingMove) ;;
          ret (Some played))
         (ret None)
  else ret None.

(** [makeAIMove()], on the live [game], with the component's
    [difficulty], [moveCount] and [selectedOpening]. *)
Definition makeAIMove (difficulty : Difficulty) (moveCount : nat)
           (selectedOpening : list string) : M Outcome :=
  game <- getLive ;;
  let possibleMoves := moves game in
  if isGameOver game || isDraw game || (List.length possibleMoves =? 0)%nat
  then ret GameOver
  else
    booked <- bookAttempt moveCount selectedOpening ;;
    match booked with
    | Some played => ret (BookMove played)
    | None => searchSelect difficulty possibleMoves
    end.

(** The component's state, and the state after the setters of
    [makeAIMove] have run. *)
Record ChessGame : Type := mkChessGame {
  game : Chess;
  gameOver : bool;
  moveCount : nat;
  selectedOpening : list string
}.

Definition afterAIMove (st : ChessGame) (live' : Chess) (o : Outcome)
  : ChessGame :=
  match o with
  | GameOver =>
      mkChessGame (game st) true (moveCount st) (selectedOpening st)
  | BookMove _ | SearchMove _ =>
      mkChessGame (load (fen live')) (gameOver st) (S (moveCount st))
                  (selectedOpening st)
  | NoMove => st
  end.

End Engine.

Arguments Ok {E A} a w.
Arguments Throw {E A} w.

Notation "x <- c ;; k" := (bind c (fun x => k))
  (at level 61, c at next level, right associativity).
Notation "c ;; k" := (bind c (fun _ => k))
  (at level 61, right associativity).

(** ** A concrete rules engine: explicit game trees

    A position is given by what the engine answers about it: the piece
    placement, the check, checkmate and draw flags, and the legal moves in
    enumeration order, each with the position it leads to.  The live
    [Chess] object is the current position and the history that [undo]
    pops. *)

Module Tree.

#[warnings="-register-all"]
Inductive Pos : Type :=
| mkPos (cells : list (list (option Piece))) (check mate draw : bool)
        (replies : list (string * Pos)).

Definition cells (p : Pos) : list (list (option Piece)) :=
  match p with mkPos c _ _ _ _ => c end.
Definition check (p : Pos) : bool :=
  match p with mkPos _ c _ _ _ => c end.
Definition mate (p : Pos) : bool :=
  match p with mkPos _ _ m _ _ => m end.
Definition draw (p : Pos) : bool :=
  match p with mkPos _ _ _ d _ => d end.
Definition replies (p : Pos) : list (string * Pos) :=
  match p with mkPos _ _ _ _ r => r end.

Record Game : Type := mkGame { current : Pos; history : list Pos }.

Definition sanOf (a : MoveArg string) : string :=
  match a with BySan s => s | ByObject m => m end.

(** A move is accepted when it is written exactly as the SAN of a reply
    (chess.js also reads looser notations; none is used below). *)
Definition treeMove (g : Game) (a : MoveArg string) : option (string * Game) :=
  match find (fun r => String.eqb (fst r) (sanOf a)) (replies (current g)) with
  | Some (s, p) => Some (s, mkGame p (current g :: history g))
  | None => None
  end.

Definition treeUndo (g : Game) : Game :=
  match history g with
  | p :: h => mkGame p h
  | [] => g
  end.

(** The piece on a square named as chess.js names it (["a1"] to ["h8"]);
    the rows of [cells] run from rank 8 down to rank 1, as in [board()]. *)
Definition cellAt (c : list (list (option Piece))) (square : string)
  : option Piece :=
  match square with
  | String f (String r EmptyString) =>
      let file := (nat_of_ascii f - 97)%nat in
      let rank := (nat_of_ascii r - 49)%nat in
      if ((97 <=? nat_of_ascii f) && (49 <=? nat_of_ascii r))%nat
      then nth file (nth (7 - rank) c []) None
      else None
  | _ => None
  end.

#[export] Instance TreeEngine : RulesEngine := {|
  Chess := Game;
  Move := string;
  Fen := Pos;
  san := fun m => m;
  moves := fun g => map fst (replies (current g));
  move := treeMove;
  undo := treeUndo;
  get := fun g square => cellAt (cells (current g)) square;
  board := fun g => cells (current g);
  isCheck := fun g => check (current g);
  isCheckmate := fun g => mate (current g);
  isDraw := fun g => draw (current g);
  isGameOver := fun g => mate (current g) || draw (current g);
  fen := current;
  load := fun p => mkGame p []
|}.

(** *** Piece placement in FEN *)

Definition pieceOfChar (c : ascii) : option Piece :=
  match c with
  | "P"%char => Some (mkPiece White Pawn)
  | "N"%char => Some (mkPiece White Knight)
  | "B"%char => Some (mkPiece White Bishop)
  | "R"%char => Some (mkPiece White Rook)
  | "Q"%char => Some (mkPiece White Queen)
  | "K"%char => Some (mkPiece White King)
  | "p"%char => Some (mkPiece Black Pawn)
  | "n"%char => Some (mkPiece Black Knight)
  | "b"%char => Some (mkPiece Black Bishop)
  | "r"%char => Some (mkPiece Black Rook)
  | "q"%char => Some (mkPiece Black Queen)
  | "k"%char => Some (mkPiece Black King)
  | _ => None
  end.

(** The rows of a FEN piece placement, rank 8 first; a digit stands for
    that many empty squares. *)
Fixpoint fenCells (s : string) (row : list (option Piece))
         (rows : list (list (option Piece))) : list (list (option Piece)) :=
  match s with
  | EmptyString => rows ++ [row]
  | String c s' =>
      if Ascii.eqb c "/"%char then fenCells s' [] (rows ++ [row])
      else match pieceOfChar c with
           | Some piece => fenCells s' (row ++ [Some piece]) rows
           | None =>
               fenCells s' (row ++ repeat None (nat_of_ascii c - 48)) rows
           end
  end.

(** A position at the search horizon of the calls studied below: its
    placement and flags are those of the rules engine and its replies are
    left out.  The calls studied below enumerate the moves of such a
    position only where it is a checkmate, which has none, and
    [getEndgameBonus] tries a move in one only where chess.js rejects it
    too: in a checkmate, and after the moves of [backRank], where no
    reply of White is written like the move Black has just made, with or
    without the capture sign. *)
Definition horizon (placement : string) (check mate draw : bool) : Pos :=
  mkPos (fenCells placement [] []) check mate draw [].

(** Black to move in [1RR5/8/7k/8/8/2P1P3/2r1r3/2B3K1 b - - 0 1], with the
    sixteen legal moves in the order chess.js enumerates them (from a8 to
    h1, by piece offsets).  Two of them mate: [Rxc1#] takes the bishop,
    [Re1#] takes nothing.  The position arises from
    [R1R5/8/7k/8/8/2P1P3/2r1r3/2B3K1 w - - 0 1] by [Rab8], the first move
    enumerated there. *)
Definition twoMates : Pos :=
  mkPos (fenCells "1RR5/8/7k/8/8/2P1P3/2r1r3/2B3K1" [] []) false false false
    [
      ("Kg7", horizon "1RR5/6k1/8/8/8/2P1P3/2r1r3/2B3K1" false false false);
      ("Kh7", horizon "1RR5/7k/8/8/8/2P1P3/2r1r3/2B3K1" false false false);
      ("Kh5", horizon "1RR5/8/8/7k/8/2P1P3/2r1r3/2B3K1" false false false);
      ("Kg5", horizon "1RR5/8/8/6k1/8/2P1P3/2r1r3/2B3K1" false false false);
      ("Kg6", horizon "1RR5/8/6k1/8/8/2P1P3/2r1r3/2B3K1" false false false);
      ("Rxc3", horizon "1RR5/8/7k/8/8/2r1P3/4r3/2B3K1" false false false);
      ("Rcd2", horizon "1RR5/8/7k/8/8/2P1P3/3rr3/2B3K1" false false false);
      ("Rxc1#", horizon "1RR5/8/7k/8/8/2P1P3/4r3/2r3K1" true true false);
      ("Rb2", horizon "1RR5/8/7k/8/8/2P1P3/1r2r3/2B3K1" false false false);
      ("Ra2", horizon "1RR5/8/7k/8/8/2P1P3/r3r3/2B3K1" false false false);
      ("Rxe3", horizon "1RR5/8/7k/8/8/2P1r3/2r5/2B3K1" false false false);
      ("Rf2", horizon "1RR5/8/7k/8/8/2P1P3/2r2r2/2B3K1" false false false);
      ("Rg2+", horizon "1RR5/8/7k/8/8/2P1P3/2r3r1/2B3K1" true false false);
      ("Rh2", horizon "1RR5/8/7k/8/8/2P1P3/2r4r/2B3K1" false false false);
      ("Re1#", horizon "1RR5/8/7k/8/8/2P1P3/2r5/2B1r1K1" true true false);
      ("Red2", horizon "1RR5/8/7k/8/8/2P1P3/2rr4/2B3K1" false false false) ].

(** Black to move in [4r1k1/5ppp/8/8/8/8/5PPP/6K1 b - - 0 1]: nine pieces,
    among them the black king and rook and the white king of the easy
    pattern [rook_king_mate]; [Re1#] mates on the back rank. *)
Definition backRank : Pos :=
  mkPos (fenCells "4r1k1/5ppp/8/8/8/8/5PPP/6K1" [] []) false false false
    [
      ("Rf8", horizon "5rk1/5ppp/8/8/8/8/5PPP/6K1" false false false);
      ("Re7", horizon "6k1/4rppp/8/8/8/8/5PPP/6K1" false false false);
      ("Re6", horizon "6k1/5ppp/4r3/8/8/8/5PPP/6K1" false false false);
      ("Re5", horizon "6k1/5ppp/8/4r3/8/8/5PPP/6K1" false false false);
      ("Re4", horizon "6k1/5ppp/8/8/4r3/8/5PPP/6K1" false false false);
      ("Re3", horizon "6k1/5ppp/8/8/8/4r3/5PPP/6K1" false false false);
      ("Re2", horizon "6k1/5ppp/8/8/8/8/4rPPP/6K1" false false false);
      ("Re1#", horizon "6k1/5ppp/8/8/8/8/5PPP/4r1K1" true true false);
      ("Rd8", horizon "3r2k1/5ppp/8/8/8/8/5PPP/6K1" false false false);
      ("Rc8", horizon "2r3k1/5ppp/8/8/8/8/5PPP/6K1" false false false);
      ("Rb8", horizon "1r4k1/5ppp/8/8/8/8/5PPP/6K1" false false false);
      ("Ra8", horizon "r5k1/5ppp/8/8/8/8/5PPP/6K1" false false false);
      ("Kh8", horizon "4r2k/5ppp/8/8/8/8/5PPP/6K1" false false false);
      ("Kf8", horizon "4rk2/5ppp/8/8/8/8/5PPP/6K1" false false false);
      ("f6", horizon "4r1k1/6pp/5p2/8/8/8/5PPP/6K1" false false false);
      ("f5", horizon "4r1k1/6pp/8/5p2/8/8/5PPP/6K1" false false false);
      ("g6", horizon "4r1k1/5p1p/6p1/8/8/8/5PPP/6K1" false false false);
      ("g5", horizon "4r1k1/5p1p/8/6p1/8/8/5PPP/6K1" false false false);
      ("h6", horizon "4r1k1/5pp1/7p/8/8/8/5PPP/6K1" false false false);
      ("h5", horizon "4r1k1/5pp1/8/7p/8/8/5PPP/6K1" false false false) ].

(** Black to move in [qqqqb1rk/qqqqnNnq/rb6/8/8/8/6PP/7K b - - 0 1]: Black
    has promoted every pawn, the white knight gives check, the black king
    is smothered, and the only legal move is [Bxf7]; White then has [h3]
    and [h4] (the g-pawn is pinned, g1 is covered). *)
Definition oneCapture : Pos :=
  mkPos (fenCells "qqqqb1rk/qqqqnNnq/rb6/8/8/8/6PP/7K" [] []) true false false
    [
      ("Bxf7",
       mkPos (fenCells "qqqq2rk/qqqqnbnq/rb6/8/8/8/6PP/7K" [] []) false false false
       [
         ("h3",
          horizon "qqqq2rk/qqqqnbnq/rb6/8/8/7P/6P1/7K" false false false);
         ("h4",
          horizon "qqqq2rk/qqqqnbnq/rb6/8/7P/8/6P1/7K" false false false) ]) ].

(** Black to move in [qqqqb1nk/qqqqnNrq/rb6/8/8/8/6PP/7K b - - 0 1]: as
    [oneCapture], with the rook on g7, so that the two legal moves are
    [Bxf7] and [Rxf7]; after either, White has [h3] and [h4]. *)
Definition twoCaptures : Pos :=
  mkPos (fenCells "qqqqb1nk/qqqqnNrq/rb6/8/8/8/6PP/7K" [] []) true false false
    [
      ("Bxf7",
       mkPos (fenCells "qqqq2nk/qqqqnbrq/rb6/8/8/8/6PP/7K" [] []) false false false
       [
         ("h3",
          horizon "qqqq2nk/qqqqnbrq/rb6/8/8/7P/6P1/7K" false false false);
         ("h4",
          horizon "qqqq2nk/qqqqnbrq/rb6/8/7P/8/6P1/7K" false false false) ]);
      ("Rxf7",
       mkPos (fenCells "qqqqb1nk/qqqqnr1q/rb6/8/8/8/6PP/7K" [] []) false false false
       [
         ("h3",
          horizon "qqqqb1nk/qqqqnr1q/rb6/8/8/7P/6P1/7K" false false false);
         ("h4",
          horizon "qqqqb1nk/qqqqnr1q/rb6/8/7P/8/6P1/7K" false false false) ]) ].

(** Black to move after 1. e4
    ([rnbqkbnr/pppppppp/8/8/4P3/8/PPPP1PPP/RNBQKBNR b KQkq e3 0 1]), with
    the twenty legal moves in enumeration order. *)
Definition afterE4 : Pos :=
  mkPos (fenCells "rnbqkbnr/pppppppp/8/8/4P3/8/PPPP1PPP/RNBQKBNR" [] []) false false false
    [
      ("Nc6", horizon "r1bqkbnr/pppppppp/2n5/8/4P3/8/PPPP1PPP/RNBQKBNR" false false false);
      ("Na6", horizon "r1bqkbnr/pppppppp/n7/8/4P3/8/PPPP1PPP/RNBQKBNR" false false false);
      ("Nh6", horizon "rnbqkb1r/pppppppp/7n/8/4P3/8/PPPP1PPP/RNBQKBNR" false false false);
      ("Nf6", horizon "rnbqkb1r/pppppppp/5n2/8/4P3/8/PPPP1PPP/RNBQKBNR" false false false);
      ("a6", horizon "rnbqkbnr/1ppppppp/p7/8/4P3/8/PPPP1PPP/RNBQKBNR" false false false);
      ("a5", horizon "rnbqkbnr/1ppppppp/8/p7/4P3/8/PPPP1PPP/RNBQKBNR" false false false);
      ("b6", horizon "rnbqkbnr/p1pppppp/1p6/8/4P3/8/PPPP1PPP/RNBQKBNR" false false false);
      ("b5", horizon "rnbqkbnr/p1pppppp/8/1p6/4P3/8/PPPP1PPP/RNBQKBNR" false false false);
      ("c6", horizon "rnbqkbnr/pp1ppppp/2p5/8/4P3/8/PPPP1PPP/RNBQKBNR" false false false);
      ("c5", horizon "rnbqkbnr/pp1ppppp/8/2p5/4P3/8/PPPP1PPP/RNBQKBNR" false false false);
      ("d6", horizon "rnbqkbnr/ppp1pppp/3p4/8/4P3/8/PPPP1PPP/RNBQKBNR" false false false);
      ("d5", horizon "rnbqkbnr/ppp1pppp/8/3p4/4P3/8/PPPP1PPP/RNBQKBNR" false false false);
      ("e6", horizon "rnbqkbnr/pppp1ppp/4p3/8/4P3/8/PPPP1PPP/RNBQKBNR" false false false);
      ("e5", horizon "rnbqkbnr/pppp1ppp/8/4p3/4P3/8/PPPP1PPP/RNBQKBNR" false false false);
      ("f6", horizon "rnbqkbnr/ppppp1pp/5p2/8/4P3/8/PPPP1PPP/RNBQKBNR" false false false);
      ("f5", horizon "rnbqkbnr/ppppp1pp/8/5p2/4P3/8/PPPP1PPP/RNBQKBNR" false false false);
      ("g6", horizon "rnbqkbnr/pppppp1p/6p1/8/4P3/8/PPPP1PPP/RNBQKBNR" false false false);
      ("g5", horizon "rnbqkbnr/pppppp1p/8/6p1/4P3/8/PPPP1PPP/RNBQKBNR" false false false);
      ("h6", horizon "rnbqkbnr/ppppppp1/7p/8/4P3/8/PPPP1PPP/RNBQKBNR" false false false);
      ("h5", horizon "rnbqkbnr/ppppppp1/8/7p/4P3/8/PPPP1PPP/RNBQKBNR" false false false) ].

(** Black to move in [4r3/8/8/8/2N5/8/rP3PPP/k3R1K1 b - - 0 1]: the white
    rook gives check, and the only legal move is [Rxe1#], which mates on
    the back rank.  The game tree is complete. *)
Definition onlyMate : Pos :=
  mkPos (fenCells "4r3/8/8/8/2N5/8/rP3PPP/k3R1K1" [] []) true false false
    [ ("Rxe1#", horizon "8/8/8/8/2N5/8/rP3PPP/k3r1K1" true true false) ].

(** Where [Rxc1#] leads from [twoMates]: a checkmate, no legal move. *)
Definition matedAtC1 : Pos :=
  horizon "1RR5/8/7k/8/8/2P1P3/4r3/2r3K1" true true false.

(** A [Chess] object on a position: [new Chess(fen)]. *)
Definition gameAt (p : Pos) : Chess := load p.

(** The live object on a position, nothing called on it yet. *)
Definition fresh (p : Pos) : World := mkWorld (gameAt p) [].

(** A move of the tree engine, named by its SAN. *)
Definition sanMove (s : string) : Move := s.

End Tree.


(** ** Notions the properties are stated with *)

(** Moves applied and not yet undone after the trace [t], starting from
    [open] of them; [None] when the trace undoes more than was applied. *)
Fixpoint pending (open : nat) (t : list Event) : option nat :=
  match t with
  | [] => Some open
  | EvMove _ :: t' => pending (S open) t'
  | EvUndo :: t' =>
      match open with
      | O => None
      | S n => pending n t'
      end
  | _ :: t' => pending open t'
  end.

(** Every applied move is undone exactly once, in stack order. *)
Definition balanced (t : list Event) : Prop := pending 0 t = Some 0%nat.

Section Notions.
Context {E : RulesEngine}.

(** The value a computation returns, if it returns. *)
Definition resultValue {A : Type} (r : Res A) : option A :=
  match r with Ok a _ => Some a | Throw _ => None end.

(** The world a computation ends in. *)
Definition resultWorld {A : Type} (r : Res A) : World :=
  match r with Ok _ w => w | Throw w => w end.

(** The move an outcome plays. *)
Definition chosenMove (o : Outcome) : option Move :=
  match o with
  | BookMove m | SearchMove m => Some m
  | GameOver | NoMove => None
  end.

(** The first test of [makeAIMove]. *)
Definition gameIsOver (g : Chess) : bool :=
  isGameOver g || isDraw g || (List.length (moves g) =? 0)%nat.

(** The pieces [isEndgame] counts. *)
Definition pieceCount (position : Chess) : nat :=
  List.length
    (filter (fun piece => match piece with Some _ => true | None => false end)
            (List.concat (board position))).

(** *** The values the search computes, as functions of the position *)

(** The position the move named [s] leads to. *)
Definition after (g : Chess) (a : MoveArg Move) : Chess :=
  match move g a with
  | Some (_, g') => g'
  | None => g
  end.

(** The value [forMax] returns from [g]; [value] is the value of the
    recursive call. *)
Fixpoint maxOver (value : Z -> Z -> Chess -> Z) (g : Chess)
         (possibleMoves : list string) (maxEval alpha beta : Z) : Z :=
  match possibleMoves with
  | [] => maxEval
  | s :: rest =>
      let evaluation := value alpha beta (after g (BySan s)) in
      let maxEval := Z.max maxEval evaluation in
      let alpha := Z.max alpha evaluation in
      if beta <=? alpha then maxEval
      else maxOver value g rest maxEval alpha beta
  end.

(** The value [forMin] returns from [g]. *)
Fixpoint minOver (value : Z -> Z -> Chess -> Z) (g : Chess)
         (possibleMoves : list string) (minEval alpha beta : Z) : Z :=
  match possibleMoves with
  | [] => minEval
  | s :: rest =>
      let evaluation := value alpha beta (after g (BySan s)) in
      let minEval := Z.min minEval evaluation in
      let beta := Z.min beta evaluation in
      if beta <=? alpha then minEval
      else minOver value g rest minEval alpha beta
  end.

(** The value [minimax] returns on [g]. *)
Fixpoint searchValue (depth : nat) (maximizingPlayer : bool)
         (alpha beta : Z) (g : Chess) {struct depth} : Z :=
  match depth with
  | O => evaluateBoard g
  | S depth' =>
      let possibleMoves := map san (moves g) in
      if maximizingPlayer
      then maxOver (searchValue depth' false) g possibleMoves (-9999)
                   alpha beta
      else minOver (searchValue depth' true) g possibleMoves 9999
                   alpha beta
  end.

(** The value [allMax] returns from [g]. *)
Fixpoint maxOfAll (value : Chess -> Z) (g : Chess)
         (possibleMoves : list string) (maxEval : Z) : Z :=
  match possibleMoves with
  | [] => maxEval
  | s :: rest =>
      maxOfAll value g rest (Z.max maxEval (value (after g (BySan s))))
  end.

(** The value [allMin] returns from [g]. *)
Fixpoint minOfAll (value : Chess -> Z) (g : Chess)
         (possibleMoves : list string) (minEval : Z) : Z :=
  match possibleMoves with
  | [] => minEval
  | s :: rest =>
      minOfAll value g rest (Z.min minEval (value (after g (BySan s))))
  end.

(** The value [exhaustiveMinimax] returns on [g]. *)
Fixpoint fullValue (depth : nat) (maximizingPlayer : bool) (g : Chess)
         {struct depth} : Z :=
  match depth with
  | O => evaluateBoard g
  | S depth' =>
      let possibleMoves := map san (moves g) in
      if maximizingPlayer
      then maxOfAll (fullValue depth' false) g possibleMoves (-9999)
      else minOfAll (fullValue depth' true) g possibleMoves 9999
  end.

(** A pruned and an exhaustive value agree inside the window from
    [alpha] to [beta]: both are at most [alpha], or both are at least
    [beta], or they are equal. *)
Definition agreeInside (alpha beta pruned exhaustive : Z) : Prop :=
  (exhaustive <= alpha /\ pruned <= alpha)
  \/ (beta <= exhaustive /\ beta <= pruned)
  \/ pruned = exhaustive.

(** Two running maxima agree above [alpha]. *)
Definition agreeAbove (alpha pruned exhaustive : Z) : Prop :=
  (exhaustive <= alpha /\ pruned <= alpha) \/ pruned = exhaustive.

(** Two running minima agree below [beta]. *)
Definition agreeBelow (beta pruned exhaustive : Z) : Prop :=
  (beta <= exhaustive /\ beta <= pruned) \/ pruned = exhaustive.


(** The value [forEachPattern] returns. *)
Fixpoint patternsValue (position : Chess) (moveObj : Move)
         (patterns : list EndgamePattern) (bonus : Z) : Z :=
  match patterns with
  | [] => bonus
  | pat :: rest =>
      match move (load (fen position)) (BySan (san moveObj)) with
      | Some (_, tempGame) =>
          patternsValue position moveObj rest
                        (patternBonus pat tempGame bonus)
      | None => patternsValue position moveObj rest bonus
      end
  end.

(** The value [getEndgameBonus] returns. *)
Definition bonusValue (difficulty : Difficulty) (position : Chess)
           (moveObj : Move) : Z :=
  if negb (isEndgame position) then 0
  else patternsValue position moveObj (endgamePatterns difficulty) 0.

(** The value the root loop computes for the candidate [m] on [g]. *)
Definition rootScore (difficulty : Difficulty) (g : Chess) (m : Move) : Z :=
  let g' := after g (ByObject m) in
  searchValue (difficultyDepth difficulty - 1) false (-10000) 10000 g'
  + bonusValue difficulty g' m.

(** [m] is the last of the moves of [l] with the greatest [score]. *)
Definition lastMaximal (score : Move -> Z) (l : list Move) (m : Move)
  : Prop :=
  exists pre post,
    l = pre ++ m :: post
    /\ (forall x, In x pre -> score x <= score m)
    /\ (forall x, In x post -> score x < score m).

(** What the root loop knows after the candidates [done]: no best move
    yet and every score below -9999, or the last of the best, at -9999 or
    above. *)
Definition bestSoFar (score : Move -> Z) (done : list Move)
           (bestMove : option Move) (bestValue : Z) : Prop :=
  match bestMove with
  | None => bestValue = -9999 /\ forall x, In x done -> score x < -9999
  | Some b =>
      bestValue = score b /\ -9999 <= score b /\ lastMaximal score done b
  end.

(** A computation that returns [v] on the live position [g] and gives
    [g] back, the moves it made on it undone. *)
Definition computes (c : M Z) (v : Chess -> Z) : Prop :=
  forall g tr, exists t,
    c (mkWorld g tr) = Ok (v g) (mkWorld g (tr ++ t)) /\ balanced t.

End Notions.

(** ** Notions for the further properties *)

(** The other colour, and a piece given to the other side. *)
Definition opposite (c : Color) : Color :=
  match c with White => Black | Black => White end.

Definition recolour (piece : Piece) : Piece :=
  mkPiece (opposite (color piece)) (type piece).

(** The calls of one kind in a trace. *)
Definition calls (kind : Event -> bool) (t : list Event) : nat :=
  List.length (filter kind t).

Definition isEvaluate (e : Event) : bool :=
  match e with EvEvaluate => true | _ => false end.

(** The greatest number of moves applied and not yet undone at any point
    of the trace [t], starting from [open] of them. *)
Fixpoint peak (open : nat) (t : list Event) : nat :=
  match t with
  | [] => open
  | EvMove _ :: t' => Nat.max open (peak (S open) t')
  | EvUndo :: t' => Nat.max open (peak (Nat.pred open) t')
  | _ :: t' => peak open t'
  end.

(** The greatest of [floor] and the numbers of [l]; the least of
    [ceiling] and the numbers of [l]. *)
Definition greatest (floor : Z) (l : list Z) : Z := fold_right Z.max floor l.
Definition least (ceiling : Z) (l : list Z) : Z := fold_right Z.min ceiling l.

(** The greatest, and the least, of the numbers of [l] alone; [default]
    when [l] is empty. *)
Definition greatestOr (default : Z) (l : list Z) : Z :=
  match l with
  | [] => default
  | x :: rest => fold_right Z.max x rest
  end.

Definition leastOr (default : Z) (l : list Z) : Z :=
  match l with
  | [] => default
  | x :: rest => fold_right Z.min x rest
  end.

Section FurtherNotions.
Context {E : RulesEngine}.

(** [q] is [p] seen from the other side of the board: the ranks are
    reversed and the colours exchanged. *)
Definition mirrored (p q : Chess) : Prop :=
  forall i j, (i <= 7)%nat -> (j <= 7)%nat ->
    get q (squareName i j)
    = option_map recolour (get p (squareName i (7 - j))).

(** The two terms of [evaluateBoard] that no colour signs. *)
Definition flatTerms (position : Chess) : Z :=
  (if isCheck position then 50 else 0)
  + (if isCheckmate position then 10000 else 0).

(** The positions the legal moves of [g] lead to, in enumeration order. *)
Definition children (g : Chess) : list Chess :=
  map (fun m => after g (BySan (san m))) (moves g).

(** The depth-limited minimax value: the evaluation at depth 0; above,
    the greatest of the children's values for the maximizing player and
    the least for the minimizing one, whatever those values are; -9999
    and 9999 only where there is no child. *)
Fixpoint minimaxValue (depth : nat) (maximizingPlayer : bool) (g : Chess)
         {struct depth} : Z :=
  match depth with
  | O => evaluateBoard g
  | S depth' =>
      if maximizingPlayer
      then greatestOr (-9999) (map (minimaxValue depth' false) (children g))
      else leastOr 9999 (map (minimaxValue depth' true) (children g))
  end.

(** Every position [depth] legal moves below [g], the leaves of a search
    of that depth, has an evaluation between -9999 and 9999. *)
Fixpoint leavesWithin (depth : nat) (g : Chess) {struct depth} : bool :=
  match depth with
  | O => (-9999 <=? evaluateBoard g) && (evaluateBoard g <=? 9999)
  | S depth' => forallb (leavesWithin depth') (children g)
  end.

(** What one pattern of [getEndgameBonus] adds for the position
    [tempGame] the move leads to, when the pattern's name includes
    [mate]: 500 for a checkmate, else 200 for a check, and 50 for every
    central square that holds a black piece. *)
Definition blackOn (tempGame : Chess) (square : string) : Z :=
  match get tempGame square with
  | Some piece => if isWhite (color piece) then 0 else 1
  | None => 0
  end.

Definition patternWorth (tempGame : Chess) : Z :=
  (if isCheckmate tempGame then 500
   else if isCheck tempGame then 200 else 0)
  + 50 * sumOver (blackOn tempGame) centralSquares.

(** *** The calls the search makes, as functions of the position *)

(** The calls [forMax] makes from [g]; [value] and [traced] are the value
    and the calls of the recursive call. *)
Fixpoint maxTrace (value : Z -> Z -> Chess -> Z)
         (traced : Z -> Z -> Chess -> list Event) (g : Chess)
         (possibleMoves : list string) (alpha beta : Z) : list Event :=
  match possibleMoves with
  | [] => []
  | s :: rest =>
      let evaluation := value alpha beta (after g (BySan s)) in
      let alpha' := Z.max alpha evaluation in
      (EvMove s :: traced alpha beta (after g (BySan s)) ++ [EvUndo])
      ++ (if beta <=? alpha' then []
          else maxTrace value traced g rest alpha' beta)
  end.

(** The calls [forMin] makes from [g]. *)
Fixpoint minTrace (value : Z -> Z -> Chess -> Z)
         (traced : Z -> Z -> Chess -> list Event) (g : Chess)
         (possibleMoves : list string) (alpha beta : Z) : list Event :=
  match possibleMoves with
  | [] => []
  | s :: rest =>
      let evaluation := value alpha beta (after g (BySan s)) in
      let beta' := Z.min beta evaluation in
      (EvMove s :: traced alpha beta (after g (BySan s)) ++ [EvUndo])
      ++ (if beta' <=? alpha then []
          else minTrace value traced g rest alpha beta')
  end.

(** The calls [minimax] makes on [g]. *)
Fixpoint searchTrace (depth : nat) (maximizingPlayer : bool)
         (alpha beta : Z) (g : Chess) {struct depth} : list Event :=
  match depth with
  | O => [EvEvaluate]
  | S depth' =>
      let possibleMoves := map san (moves g) in
      if maximizingPlayer
      then maxTrace (searchValue depth' false) (searchTrace depth' false) g
                    possibleMoves alpha beta
      else minTrace (searchValue depth' true) (searchTrace depth' true) g
                    possibleMoves alpha beta
  end.

(** The calls [allMax] and [allMin] make from [g]. *)
Fixpoint allTrace (traced : Chess -> list Event) (g : Chess)
         (possibleMoves : list string) : list Event :=
  match possibleMoves with
  | [] => []
  | s :: rest =>
      (EvMove s :: traced (after g (BySan s)) ++ [EvUndo])
      ++ allTrace traced g rest
  end.

(** The calls [exhaustiveMinimax] makes on [g]. *)
Fixpoint fullTrace (depth : nat) (maximizingPlayer : bool) (g : Chess)
         {struct depth} : list Event :=
  match depth with
  | O => [EvEvaluate]
  | S depth' =>
      allTrace (fullTrace depth' (negb maximizingPlayer)) g
               (map san (moves g))
  end.

(** The calls one pass of the root loop of [makeAIMove] makes for the
    candidate [m]: the move, the search, the tries of [getEndgameBonus]
    on its private copies, the undo. *)
Definition rootTrace (difficulty : Difficulty) (g : Chess) (m : Move)
  : list Event :=
  let g' := after g (ByObject m) in
  EvMove (san m)
  :: (searchTrace (difficultyDepth difficulty - 1) false (-10000) 10000 g'
      ++ repeat (EvSimulate (san m))
                (if isEndgame g'
                 then List.length (endgamePatterns difficulty) else 0%nat))
  ++ [EvUndo].

End FurtherNotions.

(** [backRank] seen from the other side:
    [6k1/5ppp/8/8/8/8/5PPP/4R1K1 w - - 0 1]. *)
Definition backRankMirror : Tree.Pos :=
  Tree.horizon "6k1/5ppp/8/8/8/8/5PPP/4R1K1" false false false.

(** White to move in [7k/7p/8/8/8/8/P7/K7 w - - 0 1], two plies deep:
    four moves for White, and four replies to each. *)
Definition quietEnding : Tree.Pos :=
  Tree.mkPos (Tree.fenCells "7k/7p/8/8/8/8/P7/K7" [] []) false false false
    [
      ("a3",
       Tree.mkPos (Tree.fenCells "7k/7p/8/8/8/P7/8/K7" [] []) false false false
       [
         ("Kg7",
          Tree.horizon "8/6kp/8/8/8/P7/8/K7" false false false);
         ("Kg8",
          Tree.horizon "6k1/7p/8/8/8/P7/8/K7" false false false);
         ("h6",
          Tree.horizon "7k/8/7p/8/8/P7/8/K7" false false false);
         ("h5",
          Tree.horizon "7k/8/8/7p/8/P7/8/K7" false false false) ]);
      ("a4",
       Tree.mkPos (Tree.fenCells "7k/7p/8/8/P7/8/8/K7" [] []) false false false
       [
         ("Kg7",
          Tree.horizon "8/6kp/8/8/P7/8/8/K7" false false false);
         ("Kg8",
          Tree.horizon "6k1/7p/8/8/P7/8/8/K7" false false false);
         ("h6",
          Tree.horizon "7k/8/7p/8/P7/8/8/K7" false false false);
         ("h5",
          Tree.horizon "7k/8/8/7p/P7/8/8/K7" false false false) ]);
      ("Kb2",
       Tree.mkPos (Tree.fenCells "7k/7p/8/8/8/8/PK6/8" [] []) false false false
       [
         ("Kg7",
          Tree.horizon "8/6kp/8/8/8/8/PK6/8" false false false);
         ("Kg8",
          Tree.horizon "6k1/7p/8/8/8/8/PK6/8" false false false);
         ("h6",
          Tree.horizon "7k/8/7p/8/8/8/PK6/8" false false false);
         ("h5",
          Tree.horizon "7k/8/8/7p/8/8/PK6/8" false false false) ]);
      ("Kb1",
       Tree.mkPos (Tree.fenCells "7k/7p/8/8/8/8/P7/1K6" [] []) false false false
       [
         ("Kg7",
          Tree.horizon "8/6kp/8/8/8/8/P7/1K6" false false false);
         ("Kg8",
          Tree.horizon "6k1/7p/8/8/8/8/P7/1K6" false false false);
         ("h6",
          Tree.horizon "7k/8/7p/8/8/8/P7/1K6" false false false);
         ("h5",
          Tree.horizon "7k/8/8/7p/8/8/P7/1K6" false false false) ]) ].

(** * Properties *)

(** ** Sums *)

Lemma fold_left_add_sumOver {A : Type} (f : A -> Z) (l : list A) (a : Z) :
  fold_left (fun acc x => acc + f x) l a = a + sumOver f l.
Proof.
  revert a. induction l as [|x l IH]; intro a; simpl.
  - lia.
  - rewrite IH. lia.
Qed.

Lemma fold_left_ext_in {A B : Type} (F G : B -> A -> B) (l : list A) :
  (forall x, In x l -> forall b, F b x = G b x) ->
  forall b, fold_left F l b = fold_left G l b.
Proof.
  induction l as [|x l IH]; intros H b; simpl.
  - reflexivity.
  - rewrite (H x (or_introl eq_refl)). apply IH.
    intros y Hy. apply H. right. exact Hy.
Qed.

Lemma sumOver_ext_in {A : Type} (f g : A -> Z) (l : list A) :
  (forall x, In x l -> f x = g x) -> sumOver f l = sumOver g l.
Proof.
  induction l as [|x l IH]; intro H; simpl.
  - reflexivity.
  - rewrite (H x (or_introl eq_refl)), IH; [reflexivity|].
    intros y Hy. apply H. right. exact Hy.
Qed.

Lemma sumOver_app {A : Type} (f : A -> Z) (l1 l2 : list A) :
  sumOver f (l1 ++ l2) = sumOver f l1 + sumOver f l2.
Proof.
  induction l1 as [|x l1 IH]; simpl; [reflexivity | rewrite IH; lia].
Qed.

Lemma sumOver_map {A B : Type} (f : B -> Z) (g : A -> B) (l : list A) :
  sumOver f (map g l) = sumOver (fun x => f (g x)) l.
Proof.
  induction l as [|x l IH]; simpl; [reflexivity | rewrite IH; reflexivity].
Qed.

Lemma sumOver_flat_map {A B : Type} (f : B -> Z) (g : A -> list B)
      (l : list A) :
  sumOver f (flat_map g l) = sumOver (fun x => sumOver f (g x)) l.
Proof.
  induction l as [|x l IH]; simpl.
  - reflexivity.
  - rewrite sumOver_app, IH. reflexivity.
Qed.

Lemma sumOver_add {A : Type} (f g : A -> Z) (l : list A) :
  sumOver (fun x => f x + g x) l = sumOver f l + sumOver g l.
Proof.
  induction l as [|x l IH]; simpl; [reflexivity | rewrite IH; lia].
Qed.

Lemma sumOver_zero {A : Type} (l : list A) : sumOver (fun _ => 0) l = 0.
Proof. induction l as [|x l IH]; simpl; [reflexivity | rewrite IH; lia]. Qed.

Lemma sumOver_swap {A B : Type} (f : A -> B -> Z) (la : list A)
      (lb : list B) :
  sumOver (fun x => sumOver (fun y => f x y) lb) la
  = sumOver (fun y => sumOver (fun x => f x y) la) lb.
Proof.
  induction la as [|x la IH]; simpl.
  - rewrite sumOver_zero. reflexivity.
  - rewrite IH, <- sumOver_add. reflexivity.
Qed.

(** ** The evaluator *)

Section EvaluatorFacts.
Context {E : RulesEngine}.

(** One pass of the loop body adds the material term and the pawn term of
    the square. *)
Lemma evaluateSquare_terms (position : Chess) (total : Z) (i j : nat) :
  (j <= 7)%nat ->
  evaluateSquare position total i j
  = total + (materialTerm position (i, j) + pawnTerm position (i, j)).
Proof.
  intro Hj. unfold evaluateSquare, materialTerm, pawnTerm.
  cbv beta iota delta [fst snd].
  destruct (get position (squareName i j)) as [[c t]|]; [|lia].
  cbv beta iota zeta delta [type color isPawn isWhite sign ownRank pawnTable].
  destruct c; destruct t; try lia.
  replace (7 - (7 - j))%nat with j by lia. lia.
Qed.

Lemma in_seq_0_8 (j : nat) : In j (seq 0 8) -> (j <= 7)%nat.
Proof. intro H. apply in_seq in H. lia. Qed.

(** The squares the loops of [evaluateBoard] visit are the 64 squares of
    the board, each under its own name. *)
Lemma specSquares_named :
  specSquares
  = map (fun sq => (squareName (fst sq) (snd sq), sq)) allSquares.
Proof. vm_compute. reflexivity. Qed.

Lemma allSquares_bounds (sq : nat * nat) :
  In sq allSquares -> (fst sq <= 7)%nat /\ (snd sq <= 7)%nat.
Proof.
  unfold allSquares. intro H. apply in_flat_map in H.
  destruct H as [j [Hj H]]. apply in_map_iff in H.
  destruct H as [i [<- Hi]]. apply in_seq in Hi. apply in_seq in Hj.
  simpl. lia.
Qed.

Lemma pieceValues_spec (t : PieceSymbol) : pieceValues t = specPieceValue t.
Proof. destruct t; reflexivity. Qed.

(** The printed table, read from the bottom, is the table by own rank. *)
Lemma pawnTable_spec (file rank : nat) :
  (file <= 7)%nat -> (rank <= 7)%nat ->
  pawnTable file rank = specPawnBonus file rank.
Proof.
  intros Hf Hr.
  do 8 (destruct file as [|file];
        [do 8 (destruct rank as [|rank]; [vm_compute; reflexivity|]); lia|]).
  lia.
Qed.

Lemma ownRank_bound (c : Color) (j : nat) :
  (j <= 7)%nat -> (ownRank c j <= 7)%nat.
Proof. intro H. destruct c; unfold ownRank; lia. Qed.

Lemma square_terms_spec (position : Chess) (sq : nat * nat) :
  In sq allSquares ->
  materialTerm position sq
  = specMaterial position (squareName (fst sq) (snd sq), sq)
  /\ pawnTerm position sq
     = specPawn position (squareName (fst sq) (snd sq), sq).
Proof.
  intro Hin. destruct (allSquares_bounds sq Hin) as [Hi Hj].
  destruct sq as [i j]. cbn [fst snd] in Hi, Hj.
  unfold materialTerm, pawnTerm, specMaterial, specPawn. cbn [fst snd].
  destruct (get position (squareName i j)) as [[c t]|];
    [|split; reflexivity].
  cbn [type color]. split.
  - rewrite pieceValues_spec. reflexivity.
  - destruct t; cbn [isPawn]; try reflexivity.
    rewrite (pawnTable_spec _ _ Hi (ownRank_bound c _ Hj)). reflexivity.
Qed.

(** C4. For every position, [evaluateBoard] returns the sum over the
    occupied squares of the piece value signed by colour (+1 White, -1
    Black; pawn 100, knight 320, bishop 330, rook 500, queen 900, king
    20000), plus for pawns the piece-square bonus read by file and by rank
    from the owner's side and signed like material, plus a flat 50 when
    the position is in check and a flat 10000 when it is checkmate, and
    nothing for a draw. *)
Theorem evaluateBoard_is_evaluateSpec (position : Chess) :
  evaluateBoard position = evaluateSpec position.
Proof.
  unfold evaluateBoard, evaluateSpec.
  assert (Hsum :
    fold_left
      (fun total i =>
         fold_left (fun total j => evaluateSquare position total i j)
                   (seq 0 8) total)
      (seq 0 8) 0
    = sumOver (materialTerm position) allSquares
      + sumOver (pawnTerm position) allSquares).
  { rewrite (fold_left_ext_in _
       (fun total i =>
          total + sumOver (fun j => materialTerm position (i, j)
                                    + pawnTerm position (i, j)) (seq 0 8))).
    - rewrite fold_left_add_sumOver, Z.add_0_l.
      rewrite sumOver_swap.
      unfold allSquares. rewrite !sumOver_flat_map.
      rewrite <- sumOver_add.
      apply sumOver_ext_in. intros j _.
      rewrite !sumOver_map, <- sumOver_add. reflexivity.
    - intros i _ total.
      rewrite (fold_left_ext_in _
         (fun total j => total + (materialTerm position (i, j)
                                  + pawnTerm position (i, j)))).
      + apply fold_left_add_sumOver.
      + intros j Hj b. apply evaluateSquare_terms, in_seq_0_8, Hj. }
  assert (Hmaterial : sumOver (materialTerm position) allSquares
                      = sumOver (specMaterial position) specSquares).
  { rewrite specSquares_named, sumOver_map. apply sumOver_ext_in.
    intros sq Hsq. apply square_terms_spec, Hsq. }
  assert (Hpawn : sumOver (pawnTerm position) allSquares
                  = sumOver (specPawn position) specSquares).
  { rewrite specSquares_named, sumOver_map. apply sumOver_ext_in.
    intros sq Hsq. apply square_terms_spec, Hsq. }
  rewrite Hsum, Hmaterial, Hpawn.
  destruct (isCheck position), (isCheckmate position), (isDraw position); lia.
Qed.

End EvaluatorFacts.

(** ** Traces *)

Lemma pending_app (t1 t2 : list Event) (n : nat) :
  pending n (t1 ++ t2)
  = match pending n t1 with
    | Some k => pending k t2
    | None => None
    end.
Proof.
  revert n. induction t1 as [|e t1 IH]; intro n; simpl.
  - reflexivity.
  - destruct e; try apply IH.
    destruct n; [reflexivity | apply IH].
Qed.

Lemma pending_shift (t : list Event) (d : nat) :
  forall n k, pending n t = Some k -> pending (n + d) t = Some (k + d)%nat.
Proof.
  induction t as [|e t IH]; intros n k H; simpl in *.
  - injection H as <-. reflexivity.
  - destruct e.
    + apply (IH (S n)). exact H.
    + destruct n as [|n]; [discriminate|]. apply (IH n). exact H.
    + apply IH. exact H.
    + apply IH. exact H.
Qed.

Lemma balanced_nil : balanced [].
Proof. reflexivity. Qed.

Lemma balanced_app (t1 t2 : list Event) :
  balanced t1 -> balanced t2 -> balanced (t1 ++ t2).
Proof.
  unfold balanced. intros H1 H2. rewrite pending_app, H1. exact H2.
Qed.

(** A move, a balanced stretch, and the undo of that move. *)
Lemma balanced_move_undo (s : string) (t : list Event) :
  balanced t -> balanced (EvMove s :: t ++ [EvUndo]).
Proof.
  unfold balanced. intro H.
  assert (H1 : pending 1 t = Some 1%nat) by exact (pending_shift t 1 0 0 H).
  simpl. rewrite pending_app, H1. reflexivity.
Qed.

(** ** The search restores the live position *)

Section SearchFacts.
Context {E : RulesEngine}.
Hypothesis laws : Lawful E.

Lemma san_enumerated (g : Chess) (s : string) :
  In s (map san (moves g)) ->
  exists m g', In m (moves g) /\ san m = s
               /\ move g (BySan s) = Some (m, g') /\ undo g' = g.
Proof.
  intro H. apply in_map_iff in H. destruct H as [m [Hs Hm]].
  destruct (move_enumerated E laws g m Hm) as [g' [_ Hsan]].
  exists m, g'. rewrite <- Hs. repeat split; try assumption.
  eapply undo_move; eassumption.
Qed.

(** One pass of either loop: the move, the recursive call, the undo. *)
Lemma pass_computes (recurse : M Z) (value : Chess -> Z) (g : Chess)
      (s : string) (tr : list Event) :
  computes recurse value ->
  In s (map san (moves g)) ->
  exists t,
    (positionMove (BySan s) ;; evaluation <- recurse ;;
     positionUndo ;; ret evaluation) (mkWorld g tr)
    = Ok (value (after g (BySan s))) (mkWorld g (tr ++ t)) /\ balanced t.
Proof.
  intros Hrec Hs.
  destruct (san_enumerated g s Hs) as [m [g' [_ [Hsan [Hmove Hundo]]]]].
  destruct (Hrec g' (tr ++ [EvMove (san m)])) as [t [Hrun Hbal]].
  exists (EvMove (san m) :: t ++ [EvUndo]). split.
  - unfold bind, positionMove, positionUndo, ret, after. simpl.
    rewrite Hmove, Hrun. simpl. rewrite Hundo.
    rewrite <- !app_assoc. reflexivity.
  - apply balanced_move_undo, Hbal.
Qed.

(** Splits a pass off the head of a loop body. *)
Ltac split_pass Hrun :=
  unfold bind, ret in Hrun; simpl; unfold bind at 1;
  match goal with
  | |- context [positionMove ?a ?w] =>
      destruct (positionMove a w) as [? ?w1|?]; [|discriminate Hrun]
  end;
  unfold bind at 1;
  match goal with
  | |- context [match ?r ?w1 with Ok _ _ => _ | Throw _ => _ end] =>
      destruct (r w1) as [? ?w2|?]; [|discriminate Hrun]
  end;
  unfold bind at 1;
  match goal with
  | |- context [positionUndo ?w2] =>
      destruct (positionUndo w2) as [? ?w3|?]; [|discriminate Hrun]
  end;
  injection Hrun as -> ->.

Lemma forMax_computes (recurse : Z -> Z -> M Z)
      (value : Z -> Z -> Chess -> Z) (g : Chess) :
  (forall alpha beta, computes (recurse alpha beta) (value alpha beta)) ->
  forall possibleMoves, incl possibleMoves (map san (moves g)) ->
  forall maxEval alpha beta tr, exists t,
    forMax recurse possibleMoves maxEval alpha beta (mkWorld g tr)
    = Ok (maxOver value g possibleMoves maxEval alpha beta)
         (mkWorld g (tr ++ t))
    /\ balanced t.
Proof.
  intros Hrec possibleMoves.
  induction possibleMoves as [|s rest IH]; intros Hin maxEval alpha beta tr.
  - exists []. rewrite app_nil_r. split; [reflexivity | apply balanced_nil].
  - assert (Hs : In s (map san (moves g))) by (apply Hin; left; reflexivity).
    assert (Hrest : incl rest (map san (moves g)))
      by (intros x Hx; apply Hin; right; exact Hx).
    destruct (pass_computes (recurse alpha beta) (value alpha beta) g s tr
                (Hrec alpha beta) Hs) as [t [Hrun Hbal]].
    split_pass Hrun.
    destruct (beta <=? Z.max alpha (value alpha beta (after g (BySan s)))).
    + exists t. split; [reflexivity | exact Hbal].
    + destruct (IH Hrest (Z.max maxEval (value alpha beta (after g (BySan s))))
                   (Z.max alpha (value alpha beta (after g (BySan s))))
                   beta (tr ++ t)) as [t' [Hrun' Hbal']].
      exists (t ++ t'). rewrite Hrun', app_assoc.
      split; [reflexivity | apply balanced_app; assumption].
Qed.

Lemma forMin_computes (recurse : Z -> Z -> M Z)
      (value : Z -> Z -> Chess -> Z) (g : Chess) :
  (forall alpha beta, computes (recurse alpha beta) (value alpha beta)) ->
  forall possibleMoves, incl possibleMoves (map san (moves g)) ->
  forall minEval alpha beta tr, exists t,
    forMin recurse possibleMoves minEval alpha beta (mkWorld g tr)
    = Ok (minOver value g possibleMoves minEval alpha beta)
         (mkWorld g (tr ++ t))
    /\ balanced t.
Proof.
  intros Hrec possibleMoves.
  induction possibleMoves as [|s rest IH]; intros Hin minEval alpha beta tr.
  - exists []. rewrite app_nil_r. split; [reflexivity | apply balanced_nil].
  - assert (Hs : In s (map san (moves g))) by (apply Hin; left; reflexivity).
    assert (Hrest : incl rest (map san (moves g)))
      by (intros x Hx; apply Hin; right; exact Hx).
    destruct (pass_computes (recurse alpha beta) (value alpha beta) g s tr
                (Hrec alpha beta) Hs) as [t [Hrun Hbal]].
    split_pass Hrun.
    destruct (Z.min beta (value alpha beta (after g (BySan s))) <=? alpha).
    + exists t. split; [reflexivity | exact Hbal].
    + destruct (IH Hrest (Z.min minEval (value alpha beta (after g (BySan s))))
                   alpha
                   (Z.min beta (value alpha beta (after g (BySan s))))
                   (tr ++ t)) as [t' [Hrun' Hbal']].
      exists (t ++ t'). rewrite Hrun', app_assoc.
      split; [reflexivity | apply balanced_app; assumption].
Qed.

(** [minimax] returns [searchValue] and gives the live position back. *)
Lemma minimax_computes (depth : nat) :
  forall maximizingPlayer alpha beta,
    computes (minimax depth maximizingPlayer alpha beta)
             (searchValue depth maximizingPlayer alpha beta).
Proof.
  induction depth as [|depth IH]; intros maximizingPlayer alpha beta g tr.
  - exists [EvEvaluate]. split; reflexivity.
  - simpl. unfold bind at 1. simpl.
    destruct maximizingPlayer.
    + apply forMax_computes; [intros; apply IH | apply incl_refl].
    + apply forMin_computes; [intros; apply IH | apply incl_refl].
Qed.

Lemma allMax_computes (recurse : M Z) (value : Chess -> Z) (g : Chess) :
  computes recurse value ->
  forall possibleMoves, incl possibleMoves (map san (moves g)) ->
  forall maxEval tr, exists t,
    allMax recurse possibleMoves maxEval (mkWorld g tr)
    = Ok (maxOfAll value g possibleMoves maxEval) (mkWorld g (tr ++ t))
    /\ balanced t.
Proof.
  intros Hrec possibleMoves.
  induction possibleMoves as [|s rest IH]; intros Hin maxEval tr.
  - exists []. rewrite app_nil_r. split; [reflexivity | apply balanced_nil].
  - assert (Hs : In s (map san (moves g))) by (apply Hin; left; reflexivity).
    assert (Hrest : incl rest (map san (moves g)))
      by (intros x Hx; apply Hin; right; exact Hx).
    destruct (pass_computes recurse value g s tr Hrec Hs) as [t [Hrun Hbal]].
    split_pass Hrun.
    destruct (IH Hrest (Z.max maxEval (value (after g (BySan s)))) (tr ++ t))
      as [t' [Hrun' Hbal']].
    exists (t ++ t'). rewrite Hrun', app_assoc.
    split; [reflexivity | apply balanced_app; assumption].
Qed.

Lemma allMin_computes (recurse : M Z) (value : Chess -> Z) (g : Chess) :
  computes recurse value ->
  forall possibleMoves, incl possibleMoves (map san (moves g)) ->
  forall minEval tr, exists t,
    allMin recurse possibleMoves minEval (mkWorld g tr)
    = Ok (minOfAll value g possibleMoves minEval) (mkWorld g (tr ++ t))
    /\ balanced t.
Proof.
  intros Hrec possibleMoves.
  induction possibleMoves as [|s rest IH]; intros Hin minEval tr.
  - exists []. rewrite app_nil_r. split; [reflexivity | apply balanced_nil].
  - assert (Hs : In s (map san (moves g))) by (apply Hin; left; reflexivity).
    assert (Hrest : incl rest (map san (moves g)))
      by (intros x Hx; apply Hin; right; exact Hx).
    destruct (pass_computes recurse value g s tr Hrec Hs) as [t [Hrun Hbal]].
    split_pass Hrun.
    destruct (IH Hrest (Z.min minEval (value (after g (BySan s)))) (tr ++ t))
      as [t' [Hrun' Hbal']].
    exists (t ++ t'). rewrite Hrun', app_assoc.
    split; [reflexivity | apply balanced_app; assumption].
Qed.

(** [exhaustiveMinimax] returns [fullValue] and gives the live position
    back. *)
Lemma exhaustiveMinimax_computes (depth : nat) :
  forall maximizingPlayer,
    computes (exhaustiveMinimax depth maximizingPlayer)
             (fullValue depth maximizingPlayer).
Proof.
  induction depth as [|depth IH]; intros maximizingPlayer g tr.
  - exists [EvEvaluate]. split; reflexivity.
  - simpl. unfold bind at 1. simpl.
    destruct maximizingPlayer.
    + apply allMax_computes; [apply IH | apply incl_refl].
    + apply allMin_computes; [apply IH | apply incl_refl].
Qed.

End SearchFacts.

(** ** The root loop and the selector *)

Section SelectorFacts.
Context {E : RulesEngine}.
Hypothesis laws : Lawful E.

Lemma forEachPattern_computes (position : Chess) (moveObj : Move)
      (patterns : list EndgamePattern) :
  forall bonus g tr, exists t,
    forEachPattern position moveObj patterns bonus (mkWorld g tr)
    = Ok (patternsValue position moveObj patterns bonus)
         (mkWorld g (tr ++ t))
    /\ balanced t.
Proof.
  induction patterns as [|pat rest IH]; intros bonus g tr.
  - exists []. rewrite app_nil_r. split; [reflexivity | apply balanced_nil].
  - simpl. unfold bind at 1. simpl.
    destruct (move (load (fen position)) (BySan (san moveObj))) as [[m g1]|].
    + destruct (IH (patternBonus pat g1 bonus) g
                   (tr ++ [EvSimulate (san moveObj)])) as [t [Hrun Hbal]].
      exists (EvSimulate (san moveObj) :: t). rewrite Hrun, <- app_assoc.
      split; [reflexivity | exact Hbal].
    + destruct (IH bonus g (tr ++ [EvSimulate (san moveObj)]))
        as [t [Hrun Hbal]].
      exists (EvSimulate (san moveObj) :: t). rewrite Hrun, <- app_assoc.
      split; [reflexivity | exact Hbal].
Qed.

Lemma getEndgameBonus_computes (difficulty : Difficulty) (position : Chess)
      (moveObj : Move) (g : Chess) (tr : list Event) :
  exists t,
    getEndgameBonus difficulty position moveObj (mkWorld g tr)
    = Ok (bonusValue difficulty position moveObj) (mkWorld g (tr ++ t))
    /\ balanced t.
Proof.
  unfold getEndgameBonus, bonusValue. destruct (negb (isEndgame position)).
  - exists []. rewrite app_nil_r. split; [reflexivity | apply balanced_nil].
  - apply forEachPattern_computes.
Qed.

(** The value of one candidate is its root score, and the live position
    is given back. *)
Lemma rootValue_computes (difficulty : Difficulty) (m : Move) (g : Chess)
      (tr : list Event) :
  In m (moves g) ->
  exists t,
    rootValue difficulty (difficultyDepth difficulty) m (mkWorld g tr)
    = Ok (rootScore difficulty g m) (mkWorld g (tr ++ t))
    /\ balanced t.
Proof.
  intro Hm.
  destruct (move_enumerated E laws g m Hm) as [g' [Hobj _]].
  assert (Hundo : undo g' = g) by (eapply undo_move; eassumption).
  destruct (minimax_computes laws (difficultyDepth difficulty - 1) false
              (-10000) 10000 g' (tr ++ [EvMove (san m)]))
    as [t1 [Hrun1 Hbal1]].
  destruct (getEndgameBonus_computes difficulty g' m g'
              ((tr ++ [EvMove (san m)]) ++ t1)) as [t2 [Hrun2 Hbal2]].
  exists (EvMove (san m) :: (t1 ++ t2) ++ [EvUndo]). split.
  - unfold rootValue, rootScore, after, bind, positionMove, positionUndo,
      getLive, ret. simpl.
    rewrite Hobj, Hrun1. simpl. rewrite Hrun2. simpl. rewrite Hundo.
    rewrite <- !app_assoc. reflexivity.
  - apply balanced_move_undo, balanced_app; assumption.
Qed.

Lemma lastMaximal_bound (score : Move -> Z) (l : list Move) (m x : Move) :
  lastMaximal score l m -> In x l -> score x <= score m.
Proof.
  intros [pre [post [-> [Hpre Hpost]]]] Hx.
  apply in_app_or in Hx. destruct Hx as [Hx | [<- | Hx]].
  - apply Hpre, Hx.
  - lia.
  - apply Z.lt_le_incl, Hpost, Hx.
Qed.

Lemma lastMaximal_In (score : Move -> Z) (l : list Move) (m : Move) :
  lastMaximal score l m -> In m l.
Proof.
  intros [pre [post [-> _]]]. apply in_or_app. right. left. reflexivity.
Qed.

(** One more candidate, by the [>=] test of the root loop. *)
Lemma bestSoFar_step (score : Move -> Z) (done : list Move) (m : Move)
      (bestMove : option Move) (bestValue : Z) :
  bestSoFar score done bestMove bestValue ->
  if score m >=? bestValue
  then bestSoFar score (done ++ [m]) (Some m) (score m)
  else bestSoFar score (done ++ [m]) bestMove bestValue.
Proof.
  intro H. destruct (Z.geb_spec (score m) bestValue) as [Hge|Hlt].
  - simpl. split; [reflexivity|].
    assert (Hall : forall x, In x done -> score x <= score m).
    { intros x Hx. destruct bestMove as [b|]; simpl in H.
      - destruct H as [-> [_ Hlast]].
        pose proof (lastMaximal_bound score done b x Hlast Hx). lia.
      - destruct H as [-> Hlow]. specialize (Hlow x Hx). lia. }
    split.
    + destruct bestMove as [b|]; simpl in H; lia.
    + exists done, []. split; [reflexivity | split; [exact Hall|]].
      intros x [].
  - destruct bestMove as [b|]; simpl in *.
    + destruct H as [-> [Hb [pre [post [-> [Hpre Hpost]]]]]].
      split; [reflexivity | split; [exact Hb|]].
      exists pre, (post ++ [m]). rewrite <- app_assoc. simpl.
      split; [reflexivity | split; [exact Hpre|]].
      intros x Hx. apply in_app_or in Hx. destruct Hx as [Hx | [<- | []]].
      * apply Hpost, Hx.
      * lia.
    + destruct H as [-> Hlow]. split; [reflexivity|].
      intros x Hx. apply in_app_or in Hx. destruct Hx as [Hx | [<- | []]].
      * apply Hlow, Hx.
      * lia.
Qed.

(** The root loop runs to its end on the live position it started from
    and keeps [bestSoFar]. *)
Lemma rootLoop_runs (difficulty : Difficulty) (g : Chess) :
  forall possibleMoves, incl possibleMoves (moves g) ->
  forall done bestMove bestValue tr,
    bestSoFar (rootScore difficulty g) done bestMove bestValue ->
    exists best value t,
      rootLoop difficulty (difficultyDepth difficulty) possibleMoves
               bestMove bestValue (mkWorld g tr)
      = Ok best (mkWorld g (tr ++ t))
      /\ balanced t
      /\ bestSoFar (rootScore difficulty g) (done ++ possibleMoves)
                   best value.
Proof.
  induction possibleMoves as [|m rest IH];
    intros Hin done bestMove bestValue tr Hinv.
  - exists bestMove, bestValue, []. rewrite !app_nil_r.
    split; [reflexivity | split; [apply balanced_nil | exact Hinv]].
  - assert (Hm : In m (moves g)) by (apply Hin; left; reflexivity).
    assert (Hrest : incl rest (moves g))
      by (intros x Hx; apply Hin; right; exact Hx).
    destruct (rootValue_computes difficulty m g tr Hm) as [t [Hrun Hbal]].
    pose proof (bestSoFar_step (rootScore difficulty g) done m bestMove
                               bestValue Hinv) as Hstep.
    simpl. unfold bind at 1. rewrite Hrun.
    replace (done ++ m :: rest) with ((done ++ [m]) ++ rest)
      by (rewrite <- app_assoc; reflexivity).
    destruct (rootScore difficulty g m >=? bestValue).
    + destruct (IH Hrest (done ++ [m]) (Some m) (rootScore difficulty g m)
                   (tr ++ t) Hstep) as [best [value [t' [Hrun' [Hbal' H']]]]].
      exists best, value, (t ++ t'). rewrite Hrun', app_assoc.
      split; [reflexivity | split; [apply balanced_app; assumption | exact H']].
    + destruct (IH Hrest (done ++ [m]) bestMove bestValue (tr ++ t) Hstep)
        as [best [value [t' [Hrun' [Hbal' H']]]]].
      exists best, value, (t ++ t'). rewrite Hrun', app_assoc.
      split; [reflexivity | split; [apply balanced_app; assumption | exact H']].
Qed.

(** The search part never throws: it plays nothing when every root score
    is below -9999, and otherwise the last of the moves with the greatest
    root score. *)
Lemma searchSelect_runs (difficulty : Difficulty) (g : Chess)
      (tr : list Event) :
  exists o w',
    searchSelect difficulty (moves g) (mkWorld g tr) = Ok o w'
    /\ ((o = NoMove
         /\ forall x, In x (moves g) -> rootScore difficulty g x < -9999)
        \/ exists m,
             o = SearchMove m
             /\ -9999 <= rootScore difficulty g m
             /\ lastMaximal (rootScore difficulty g) (moves g) m).
Proof.
  destruct (rootLoop_runs difficulty g (moves g) (incl_refl _) [] None
              (-9999) tr) as [best [value [t [Hrun [_ Hbest]]]]].
  { simpl. split; [reflexivity | intros x []]. }
  simpl in Hbest. unfold searchSelect, bind at 1. rewrite Hrun.
  destruct best as [m|]; simpl in Hbest.
  - destruct Hbest as [_ [Hm Hlast]].
    destruct (move_enumerated E laws g m (lastMaximal_In _ _ _ Hlast))
      as [g' [Hobj _]].
    exists (SearchMove m), (mkWorld g' ((tr ++ t) ++ [EvMove (san m)])). split.
    + unfold bind, positionMove, ret. simpl. rewrite Hobj. reflexivity.
    + right. exists m. split; [reflexivity | split; assumption].
  - destruct Hbest as [_ Hlow].
    exists NoMove, (mkWorld g (tr ++ t)). split; [reflexivity|].
    left. split; [reflexivity | exact Hlow].
Qed.

(** What the search part plays is enumerated. *)
Lemma searchSelect_enumerated (difficulty : Difficulty) (g : Chess)
      (tr : list Event) (o : Outcome) (w' : World) (m : Move) :
  searchSelect difficulty (moves g) (mkWorld g tr) = Ok o w' ->
  chosenMove o = Some m -> In m (moves g).
Proof.
  intros Hrun Hm.
  destruct (searchSelect_runs difficulty g tr)
    as [o' [w'' [Hs [[-> _] | [m' [-> [_ Hlast]]]]]]];
    rewrite Hs in Hrun; injection Hrun as <- _.
  - discriminate.
  - injection Hm as <-. eapply lastMaximal_In. exact Hlast.
Qed.

(** The book part never throws: it plays an enumerated move, or leaves
    the world as it was. *)
Lemma bookAttempt_runs (moveCount : nat) (selectedOpening : list string)
      (w : World) :
  (exists m g',
      move (live w) (BySan (nth moveCount selectedOpening "")) = Some (m, g')
      /\ (moveCount < List.length selectedOpening)%nat
      /\ bookAttempt moveCount selectedOpening w
         = Ok (Some m) (mkWorld g' (trace w ++ [EvMove (san m)])))
  \/ bookAttempt moveCount selectedOpening w = Ok None w.
Proof.
  unfold bookAttempt.
  destruct (moveCount <? List.length selectedOpening)%nat eqn:Hlt.
  - unfold tryCatch, bind, positionMove, ret.
    destruct (move (live w) (BySan (nth moveCount selectedOpening "")))
      as [[m g']|] eqn:Hmove.
    + left. exists m, g'. apply Nat.ltb_lt in Hlt. repeat split; assumption.
    + right. reflexivity.
  - right. reflexivity.
Qed.

End SelectorFacts.

(** ** Pruning and the exhaustive value *)

Section AlphaBeta.
Context {E : RulesEngine}.

Lemma maxOfAll_lower (value : Chess -> Z) (g : Chess)
      (possibleMoves : list string) :
  forall maxEval, maxEval <= maxOfAll value g possibleMoves maxEval.
Proof.
  induction possibleMoves as [|s rest IH]; intro maxEval; simpl.
  - lia.
  - specialize (IH (Z.max maxEval (value (after g (BySan s))))). lia.
Qed.

Lemma minOfAll_upper (value : Chess -> Z) (g : Chess)
      (possibleMoves : list string) :
  forall minEval, minOfAll value g possibleMoves minEval <= minEval.
Proof.
  induction possibleMoves as [|s rest IH]; intro minEval; simpl.
  - lia.
  - specialize (IH (Z.min minEval (value (after g (BySan s))))). lia.
Qed.

Lemma maxOfAll_upper (value : Chess -> Z) (g : Chess) (bound : Z)
      (possibleMoves : list string) :
  (forall g', value g' <= bound) ->
  forall maxEval, maxEval <= bound ->
    maxOfAll value g possibleMoves maxEval <= bound.
Proof.
  intro Hv. induction possibleMoves as [|s rest IH]; intros maxEval H; simpl.
  - exact H.
  - apply IH. specialize (Hv (after g (BySan s))). lia.
Qed.

Lemma minOfAll_lower (value : Chess -> Z) (g : Chess) (bound : Z)
      (possibleMoves : list string) :
  (forall g', bound <= value g') ->
  forall minEval, bound <= minEval ->
    bound <= minOfAll value g possibleMoves minEval.
Proof.
  intro Hv. induction possibleMoves as [|s rest IH]; intros minEval H; simpl.
  - exact H.
  - apply IH. specialize (Hv (after g (BySan s))). lia.
Qed.

Lemma maxOver_lower (value : Z -> Z -> Chess -> Z) (g : Chess)
      (possibleMoves : list string) :
  forall maxEval alpha beta,
    maxEval <= maxOver value g possibleMoves maxEval alpha beta.
Proof.
  induction possibleMoves as [|s rest IH]; intros maxEval alpha beta; simpl.
  - lia.
  - destruct (beta <=? _); [lia|].
    specialize (IH (Z.max maxEval (value alpha beta (after g (BySan s))))
                   (Z.max alpha (value alpha beta (after g (BySan s)))) beta).
    lia.
Qed.

Lemma minOver_upper (value : Z -> Z -> Chess -> Z) (g : Chess)
      (possibleMoves : list string) :
  forall minEval alpha beta,
    minOver value g possibleMoves minEval alpha beta <= minEval.
Proof.
  induction possibleMoves as [|s rest IH]; intros minEval alpha beta; simpl.
  - lia.
  - destruct (_ <=? alpha); [lia|].
    specialize (IH (Z.min minEval (value alpha beta (after g (BySan s))))
                   alpha
                   (Z.min beta (value alpha beta (after g (BySan s))))).
    lia.
Qed.

Lemma minOver_lower (value : Z -> Z -> Chess -> Z) (g : Chess) (bound : Z)
      (possibleMoves : list string) :
  (forall a b g', bound <= value a b g') ->
  forall minEval alpha beta, bound <= minEval ->
    bound <= minOver value g possibleMoves minEval alpha beta.
Proof.
  intro Hv.
  induction possibleMoves as [|s rest IH]; intros minEval alpha beta H; simpl.
  - exact H.
  - specialize (Hv alpha beta (after g (BySan s))).
    destruct (_ <=? alpha); [lia|]. apply IH. lia.
Qed.

(** The arithmetic of one pass of the maximizing loop. *)
Lemma max_pass_cut (alpha beta v t p e rest : Z) :
  alpha < beta -> agreeInside alpha beta v t ->
  beta <= Z.max alpha v -> Z.max e t <= rest ->
  agreeInside alpha beta (Z.max p v) rest.
Proof. unfold agreeInside. lia. Qed.

Lemma max_pass_keeps (alpha beta v t p e : Z) :
  alpha < beta -> agreeInside alpha beta v t ->
  Z.max alpha v < beta -> agreeAbove alpha p e ->
  agreeAbove (Z.max alpha v) (Z.max p v) (Z.max e t).
Proof. unfold agreeInside, agreeAbove. lia. Qed.

Lemma max_pass_widens (alpha beta v t p e pruned exhaustive : Z) :
  alpha < beta -> agreeInside alpha beta v t ->
  Z.max alpha v < beta ->
  agreeInside (Z.max alpha v) beta pruned exhaustive ->
  Z.max p v <= pruned -> Z.max e t <= exhaustive ->
  agreeInside alpha beta pruned exhaustive.
Proof. unfold agreeInside. lia. Qed.

(** The arithmetic of one pass of the minimizing loop. *)
Lemma min_pass_cut (alpha beta v t p e rest : Z) :
  alpha < beta -> agreeInside alpha beta v t ->
  Z.min beta v <= alpha -> rest <= Z.min e t ->
  agreeInside alpha beta (Z.min p v) rest.
Proof. unfold agreeInside. lia. Qed.

Lemma min_pass_keeps (alpha beta v t p e : Z) :
  alpha < beta -> agreeInside alpha beta v t ->
  alpha < Z.min beta v -> agreeBelow beta p e ->
  agreeBelow (Z.min beta v) (Z.min p v) (Z.min e t).
Proof. unfold agreeInside, agreeBelow. lia. Qed.

Lemma min_pass_widens (alpha beta v t p e pruned exhaustive : Z) :
  alpha < beta -> agreeInside alpha beta v t ->
  alpha < Z.min beta v ->
  agreeInside alpha (Z.min beta v) pruned exhaustive ->
  pruned <= Z.min p v -> exhaustive <= Z.min e t ->
  agreeInside alpha beta pruned exhaustive.
Proof. unfold agreeInside. lia. Qed.

(** The maximizing loop: with a window that is not empty, and running
    maxima that agree above [alpha], the pruned and the exhaustive loop
    agree inside the window. *)
Lemma maxOver_agrees (value : Z -> Z -> Chess -> Z) (full : Chess -> Z)
      (g : Chess) :
  (forall a b g', a < b -> agreeInside a b (value a b g') (full g')) ->
  forall possibleMoves pruned exhaustive alpha beta,
    alpha < beta ->
    agreeAbove alpha pruned exhaustive ->
    agreeInside alpha beta
                (maxOver value g possibleMoves pruned alpha beta)
                (maxOfAll full g possibleMoves exhaustive).
Proof.
  intro Hkid.
  induction possibleMoves as [|s rest IH];
    intros pruned exhaustive alpha beta Hwin Hagree; simpl.
  - unfold agreeAbove in Hagree. unfold agreeInside. lia.
  - pose proof (Hkid alpha beta (after g (BySan s)) Hwin) as Hk.
    destruct (Z.leb_spec beta
                (Z.max alpha (value alpha beta (after g (BySan s)))))
      as [Hcut|Hgo].
    + eapply max_pass_cut; try eassumption. apply maxOfAll_lower.
    + eapply max_pass_widens; try eassumption.
      * apply IH; [exact Hgo|]. apply max_pass_keeps with (beta := beta);
          assumption.
      * apply maxOver_lower.
      * apply maxOfAll_lower.
Qed.

(** The minimizing loop, likewise, with running minima that agree below
    [beta]. *)
Lemma minOver_agrees (value : Z -> Z -> Chess -> Z) (full : Chess -> Z)
      (g : Chess) :
  (forall a b g', a < b -> agreeInside a b (value a b g') (full g')) ->
  forall possibleMoves pruned exhaustive alpha beta,
    alpha < beta ->
    agreeBelow beta pruned exhaustive ->
    agreeInside alpha beta
                (minOver value g possibleMoves pruned alpha beta)
                (minOfAll full g possibleMoves exhaustive).
Proof.
  intro Hkid.
  induction possibleMoves as [|s rest IH];
    intros pruned exhaustive alpha beta Hwin Hagree; simpl.
  - unfold agreeBelow in Hagree. unfold agreeInside. lia.
  - pose proof (Hkid alpha beta (after g (BySan s)) Hwin) as Hk.
    destruct (Z.leb_spec
                (Z.min beta (value alpha beta (after g (BySan s)))) alpha)
      as [Hcut|Hgo].
    + eapply min_pass_cut; try eassumption. apply minOfAll_upper.
    + eapply min_pass_widens; try eassumption.
      * apply IH; [exact Hgo|]. apply min_pass_keeps with (alpha := alpha);
          assumption.
      * apply minOver_upper.
      * apply minOfAll_upper.
Qed.

(** Inside a window that is not empty, the pruned and the exhaustive
    value agree. *)
Lemma searchValue_agrees (depth : nat) :
  forall maximizingPlayer alpha beta g,
    alpha < beta ->
    agreeInside alpha beta
                (searchValue depth maximizingPlayer alpha beta g)
                (fullValue depth maximizingPlayer g).
Proof.
  induction depth as [|depth IH]; intros maximizingPlayer alpha beta g Hwin.
  - right. right. reflexivity.
  - simpl. destruct maximizingPlayer.
    + apply maxOver_agrees;
        [intros; apply IH; assumption | exact Hwin | right; reflexivity].
    + apply minOver_agrees;
        [intros; apply IH; assumption | exact Hwin | right; reflexivity].
Qed.

(** From depth 1 on, a maximizing node is worth at least -9999 and a
    minimizing node at most 9999. *)
Lemma fullValue_sentinel (depth : nat) (g : Chess) :
  -9999 <= fullValue (S depth) true g /\ fullValue (S depth) false g <= 9999.
Proof.
  simpl. split; [apply maxOfAll_lower | apply minOfAll_upper].
Qed.

(** From depth 2 on, every exhaustive value lies between the two
    sentinels. *)
Lemma fullValue_inside (depth : nat) (maximizingPlayer : bool) (g : Chess) :
  -9999 <= fullValue (S (S depth)) maximizingPlayer g <= 9999.
Proof.
  destruct maximizingPlayer.
  - split; [apply fullValue_sentinel|].
    change (fullValue (S (S depth)) true g)
      with (maxOfAll (fullValue (S depth) false) g (map san (moves g))
                     (-9999)).
    apply maxOfAll_upper; [intro g'; apply fullValue_sentinel | lia].
  - split; [|apply fullValue_sentinel].
    change (fullValue (S (S depth)) false g)
      with (minOfAll (fullValue (S depth) true) g (map san (moves g)) 9999).
    apply minOfAll_lower; [intro g'; apply fullValue_sentinel | lia].
Qed.

(** With the root bounds, pruning changes no value at depth 0 and from
    depth 2 on. *)
Lemma searchValue_root_window (depth : nat) (maximizingPlayer : bool)
      (g : Chess) :
  depth <> 1%nat ->
  searchValue depth maximizingPlayer (-10000) 10000 g
  = fullValue depth maximizingPlayer g.
Proof.
  intro Hd. destruct depth as [|[|depth]]; [reflexivity | contradiction|].
  pose proof (searchValue_agrees (S (S depth)) maximizingPlayer (-10000) 10000
                                 g eq_refl) as Hc.
  pose proof (fullValue_inside depth maximizingPlayer g).
  unfold agreeInside in Hc. lia.
Qed.

(** From depth 1 on, the pruned value of a maximizing node is at least
    -9999; from depth 2 on, so is that of a minimizing node. *)
Lemma searchValue_max_lower (depth : nat) (alpha beta : Z) (g : Chess) :
  -9999 <= searchValue (S depth) true alpha beta g.
Proof. simpl. apply maxOver_lower. Qed.

Lemma searchValue_min_lower (depth : nat) (alpha beta : Z) (g : Chess) :
  -9999 <= searchValue (S (S depth)) false alpha beta g.
Proof.
  change (searchValue (S (S depth)) false alpha beta g)
    with (minOver (searchValue (S depth) true) g (map san (moves g)) 9999
                  alpha beta).
  apply minOver_lower; [intros; apply searchValue_max_lower | lia].
Qed.

End AlphaBeta.

(** ** The tree engine is lawful *)

Lemma find_fst_In (l : list (string * Tree.Pos)) (s : string) :
  In s (map fst l) ->
  exists p, find (fun r => String.eqb (fst r) s) l = Some (s, p).
Proof.
  induction l as [|[s0 p0] l IH]; intro H; simpl in *.
  - contradiction.
  - destruct (String.eqb s0 s) eqn:Heq.
    + apply String.eqb_eq in Heq. subst. exists p0. reflexivity.
    + destruct H as [H|H]; [|apply IH; exact H].
      subst. rewrite String.eqb_refl in Heq. discriminate.
Qed.

Lemma find_fst_Some (l : list (string * Tree.Pos)) (s s' : string)
      (p : Tree.Pos) :
  find (fun r => String.eqb (fst r) s) l = Some (s', p) ->
  s' = s /\ In s' (map fst l).
Proof.
  intro H. apply find_some in H. destruct H as [Hin Heq]. simpl in Heq.
  apply String.eqb_eq in Heq. split; [exact Heq|].
  apply in_map_iff. exists (s', p). split; [reflexivity | exact Hin].
Qed.

Lemma tree_lawful : Lawful Tree.TreeEngine.
Proof.
  constructor.
  - intros g m Hm. simpl in *.
    destruct (find_fst_In _ _ Hm) as [p Hp].
    exists (Tree.mkGame p (Tree.current g :: Tree.history g)).
    unfold Tree.treeMove. simpl. rewrite Hp. split; reflexivity.
  - intros g a m g' H. simpl in *. unfold Tree.treeMove in H.
    destruct (find _ _) as [[s p]|] eqn:Hf; [|discriminate].
    injection H as <- <-. apply (find_fst_Some _ _ _ _ Hf).
  - intros g a m g' H. simpl in *. unfold Tree.treeMove in H.
    destruct (find _ _) as [[s p]|] eqn:Hf; [|discriminate].
    injection H as <- <-. destruct g. reflexivity.
  - intro g. reflexivity.
Qed.

(** * The properties of the specification *)

Import Tree.

Section SpecificationProperties.
Context {E : RulesEngine}.

(** C2. For every position and every depth, [minimax] returns with the
    live position it was called on, and the moves and undos it has made
    on it in between are balanced: every move applied is undone exactly
    once, in stack order, also when a [break] cuts the enumeration
    short.  The same holds of one pass of the root loop of [makeAIMove],
    which applies a legal move, searches, and undoes it. *)
Theorem minimax_undoes_every_move (laws : Lawful E) (depth : nat)
        (maximizingPlayer : bool) (alpha beta : Z)
        (difficulty : Difficulty) (w : World) :
  (exists v t,
      minimax depth maximizingPlayer alpha beta w
      = Ok v (mkWorld (live w) (trace w ++ t))
      /\ balanced t)
  /\ (forall m, In m (moves (live w)) ->
      exists v t,
        rootValue difficulty (difficultyDepth difficulty) m w
        = Ok v (mkWorld (live w) (trace w ++ t))
        /\ balanced t).
Proof.
  destruct w as [g tr]. split.
  - destruct (minimax_computes laws depth maximizingPlayer alpha beta g tr)
      as [t [Hrun Hbal]].
    exists (searchValue depth maximizingPlayer alpha beta g), t.
    split; assumption.
  - intros m Hm.
    destruct (rootValue_computes laws difficulty m g tr Hm)
      as [t [Hrun Hbal]].
    exists (rootScore difficulty g m), t. split; assumption.
Qed.

(** C3. Whenever [makeAIMove] plays a move, from the opening book or from
    the search, that move is one of the legal moves the rules engine
    enumerates for the position it was called on. *)
Theorem makeAIMove_plays_an_enumerated_move (laws : Lawful E)
        (difficulty : Difficulty) (moveCount : nat)
        (selectedOpening : list string) (w w' : World) (o : Outcome)
        (m : Move) :
  makeAIMove difficulty moveCount selectedOpening w = Ok o w' ->
  chosenMove o = Some m ->
  In m (moves (live w)).
Proof.
  intros Hrun Hm. unfold makeAIMove, bind at 1, getLive in Hrun.
  destruct (isGameOver (live w) || isDraw (live w)
            || (List.length (moves (live w)) =? 0)%nat).
  - injection Hrun as <- _. discriminate.
  - unfold bind at 1 in Hrun.
    destruct (bookAttempt_runs moveCount selectedOpening w)
      as [[m0 [g' [Hmove [_ Hbook]]]] | Hbook]; rewrite Hbook in Hrun.
    + injection Hrun as <- _. injection Hm as <-.
      eapply move_sound; eassumption.
    + destruct w as [g tr]. simpl in Hrun.
      eapply searchSelect_enumerated; eassumption.
Qed.

(** C8. For every position with more than 10 pieces and every candidate
    move, [getEndgameBonus] returns exactly 0 and leaves the trace as it
    was: no pattern is simulated. *)
Theorem getEndgameBonus_is_zero_above_ten_pieces (difficulty : Difficulty)
        (position : Chess) (moveObj : Move) (w : World) :
  (10 < pieceCount position)%nat ->
  getEndgameBonus difficulty position moveObj w = Ok 0 w.
Proof.
  intro H. unfold getEndgameBonus, isEndgame. fold (pieceCount position).
  destruct (Nat.leb_spec (pieceCount position) 10) as [Hle|_]; [lia|].
  reflexivity.
Qed.

(** C9. When the opening book has a move for the current move index and
    the rules engine rejects it, the rejection is caught with the live
    position untouched, [makeAIMove] goes on exactly as its search part
    does on that position (after the game-over test that comes first),
    and it ends normally: no error reaches the caller. *)
Theorem rejected_book_move_falls_back_to_search (laws : Lawful E)
        (difficulty : Difficulty) (moveCount : nat)
        (selectedOpening : list string) (w : World) :
  (moveCount < List.length selectedOpening)%nat ->
  move (live w) (BySan (nth moveCount selectedOpening "")) = None ->
  bookAttempt moveCount selectedOpening w = Ok None w
  /\ makeAIMove difficulty moveCount selectedOpening w
     = (if gameIsOver (live w) then Ok GameOver w
        else searchSelect difficulty (moves (live w)) w)
  /\ exists o w',
       makeAIMove difficulty moveCount selectedOpening w = Ok o w'.
Proof.
  intros Hlt Hrej.
  assert (Hbook : bookAttempt moveCount selectedOpening w = Ok None w).
  { unfold bookAttempt. apply Nat.ltb_lt in Hlt. rewrite Hlt.
    unfold tryCatch, bind, positionMove, ret. rewrite Hrej. reflexivity. }
  assert (Hmake : makeAIMove difficulty moveCount selectedOpening w
                  = (if gameIsOver (live w) then Ok GameOver w
                     else searchSelect difficulty (moves (live w)) w)).
  { unfold makeAIMove, bind at 1, getLive, gameIsOver.
    destruct (isGameOver (live w) || isDraw (live w)
              || (List.length (moves (live w)) =? 0)%nat); [reflexivity|].
    unfold bind at 1. rewrite Hbook. reflexivity. }
  split; [exact Hbook | split; [exact Hmake|]].
  rewrite Hmake. destruct (gameIsOver (live w)).
  - exists GameOver, w. reflexivity.
  - destruct w as [g tr].
    destruct (searchSelect_runs laws difficulty g tr) as [o [w' [Hs _]]].
    exists o, w'. exact Hs.
Qed.

(** C10. For every position without a legal move and every depth of at
    least 1, [minimax] returns -9999 when maximizing and 9999 when
    minimizing, and the world it returns is the one it was given: nothing
    was called on the way, the evaluator in particular, so that no
    checkmate term is added there. *)
Theorem minimax_without_moves_is_the_sentinel (depth : nat) (alpha beta : Z)
        (w : World) :
  moves (live w) = [] ->
  minimax (S depth) true alpha beta w = Ok (-9999) w
  /\ minimax (S depth) false alpha beta w = Ok 9999 w.
Proof.
  intro H. simpl. unfold bind, getLive. rewrite H. split; reflexivity.
Qed.

End SpecificationProperties.

(** The search on [twoMates], where a [break] cuts the enumeration
    short, and the root loop on [onlyMate] give the position back. *)
Lemma minimax_undoes_every_move_witness :
  (exists v t,
      minimax 1 true (-10000) 10000 (fresh twoMates)
      = Ok v (mkWorld (gameAt twoMates) ([] ++ t))
      /\ balanced t)
  /\ (forall m, In m (moves (gameAt onlyMate)) ->
      exists v t,
        rootValue hard (difficultyDepth hard) m (fresh onlyMate)
        = Ok v (mkWorld (gameAt onlyMate) ([] ++ t))
        /\ balanced t).
Proof.
  split.
  - exact (proj1 (minimax_undoes_every_move tree_lawful 1 true (-10000)
                    10000 hard (fresh twoMates))).
  - exact (proj2 (minimax_undoes_every_move tree_lawful 1 true (-10000)
                    10000 hard (fresh onlyMate))).
Defined.

(** The move played on [backRank] is one of its legal moves. *)
Lemma makeAIMove_plays_an_enumerated_move_witness :
  In (sanMove "Re1#") (moves (live (fresh backRank))).
Proof.
  apply (makeAIMove_plays_an_enumerated_move tree_lawful easy 40
           ["e4"; "e5"] (fresh backRank)
           (resultWorld (makeAIMove easy 40 ["e4"; "e5"] (fresh backRank)))
           (SearchMove (sanMove "Re1#"))).
  - vm_compute. reflexivity.
  - reflexivity.
Defined.

(** Twenty pieces: no bonus on [oneCapture]. *)
Lemma getEndgameBonus_is_zero_above_ten_pieces_witness :
  getEndgameBonus easy (gameAt oneCapture) (sanMove "Bxf7") (fresh oneCapture)
  = Ok 0 (fresh oneCapture).
Proof.
  apply (getEndgameBonus_is_zero_above_ten_pieces easy (gameAt oneCapture)).
  vm_compute. lia.
Defined.

(** At move index 0 the easy line [e4 e5] proposes [e4], which Black
    cannot play on [backRank]. *)
Lemma rejected_book_move_falls_back_to_search_witness :
  bookAttempt 0 ["e4"; "e5"] (fresh backRank) = Ok None (fresh backRank)
  /\ makeAIMove easy 0 ["e4"; "e5"] (fresh backRank)
     = (if gameIsOver (live (fresh backRank))
        then Ok GameOver (fresh backRank)
        else searchSelect easy (moves (live (fresh backRank)))
                          (fresh backRank))
  /\ exists o w',
       makeAIMove easy 0 ["e4"; "e5"] (fresh backRank) = Ok o w'.
Proof.
  apply (rejected_book_move_falls_back_to_search tree_lawful easy 0
           ["e4"; "e5"] (fresh backRank)).
  - simpl. lia.
  - reflexivity.
Defined.

(** A checkmate met one ply below the root. *)
Lemma minimax_without_moves_is_the_sentinel_witness :
  minimax 1 true (-10000) 10000 (fresh matedAtC1) = Ok (-9999) (fresh matedAtC1)
  /\ minimax 1 false (-10000) 10000 (fresh matedAtC1)
     = Ok 9999 (fresh matedAtC1).
Proof.
  apply (minimax_without_moves_is_the_sentinel 0 (-10000) 10000
           (fresh matedAtC1)).
  reflexivity.
Defined.

(** ** Where the code departs from the specification *)

(** C1, at two calls with the root bounds -10000 and 10000.  At
    [twoMates], depth 1, maximizing: [minimax] stops at the first mate,
    [Rxc1#], whose evaluation 10240 is already at least [beta], and
    returns 10240; the same search without the [break] goes on to [Re1#]
    and returns 10570.  After [Bxf7] in [oneCapture], depth 1, minimizing
    (the call [makeAIMove] makes at difficulty intermediate): [minimax]
    stops at [h3], whose evaluation -10185 is already at most [alpha],
    and returns -10185; without the [break] the search returns -10190,
    the evaluation after [h4]. *)
Theorem pruning_changes_the_value_at_depth_one :
  resultValue (minimax 1 true (-10000) 10000 (fresh twoMates)) = Some 10240
  /\ resultValue (exhaustiveMinimax 1 true (fresh twoMates)) = Some 10570
  /\ resultValue
       (minimax 1 false (-10000) 10000
                (mkWorld (after (gameAt oneCapture)
                                (ByObject (sanMove "Bxf7"))) []))
     = Some (-10185)
  /\ resultValue
       (exhaustiveMinimax 1 false
                (mkWorld (after (gameAt oneCapture)
                                (ByObject (sanMove "Bxf7"))) []))
     = Some (-10190).
Proof. repeat split; vm_compute; reflexivity. Qed.

(** C5, at [twoCaptures]: the game is not over, and at difficulty easy
    and at difficulty intermediate the two legal moves have the same root
    value -10185, which is the maximum, and [makeAIMove] plays neither:
    both values are below the initial [bestValue] of -9999, so [bestMove]
    stays [null]. *)
Theorem tied_moves_below_the_floor_are_not_played :
  moves (gameAt twoCaptures) = [sanMove "Bxf7"; sanMove "Rxf7"]
  /\ gameIsOver (gameAt twoCaptures) = false
  /\ (forall difficulty m,
        difficulty <> hard -> In m (moves (gameAt twoCaptures)) ->
        resultValue (rootValue difficulty (difficultyDepth difficulty) m
                               (fresh twoCaptures)) = Some (-10185))
  /\ resultValue (makeAIMove easy 40 ["e4"; "e5"] (fresh twoCaptures))
     = Some NoMove
  /\ resultValue (makeAIMove intermediate 40 ["e4"; "c5"]
                             (fresh twoCaptures))
     = Some NoMove.
Proof.
  split; [reflexivity | split; [reflexivity | split]].
  - intros difficulty m Hd Hm.
    destruct difficulty; [| |contradiction];
      destruct Hm as [<- | [<- | []]]; vm_compute; reflexivity.
  - split; vm_compute; reflexivity.
Qed.

(** C6, at [oneCapture]: the game is not over, there is exactly one legal
    move, [Bxf7], its root value is -10185 at difficulty easy and at
    difficulty intermediate, and [makeAIMove] does not play it. *)
Theorem the_only_move_below_the_floor_is_not_played :
  moves (gameAt oneCapture) = [sanMove "Bxf7"]
  /\ gameIsOver (gameAt oneCapture) = false
  /\ resultValue (rootValue easy (difficultyDepth easy) (sanMove "Bxf7")
                            (fresh oneCapture)) = Some (-10185)
  /\ resultValue (rootValue intermediate (difficultyDepth intermediate)
                            (sanMove "Bxf7") (fresh oneCapture))
     = Some (-10185)
  /\ resultValue (makeAIMove easy 40 ["e4"; "e5"] (fresh oneCapture))
     = Some NoMove
  /\ resultValue (makeAIMove intermediate 40 ["e4"; "c5"]
                             (fresh oneCapture))
     = Some NoMove.
Proof. repeat split; vm_compute; reflexivity. Qed.

(** C7, at [backRank] with difficulty easy: nine pieces, [Re1#] is
    accepted and leads to a checkmate; the root value of [Re1#] is 9550,
    which is the evaluation of that checkmate (a rook down, plus 50 and
    10000) and nothing more: [getEndgameBonus] is handed the position
    after the move, where the same move is rejected for both patterns,
    and returns 0. *)
Theorem mating_move_gets_no_pattern_bonus_at_backRank :
  pieceCount (gameAt backRank) = 9%nat
  /\ exists g',
       move (gameAt backRank) (ByObject (sanMove "Re1#"))
       = Some (sanMove "Re1#", g')
       /\ isCheckmate g' = true
       /\ evaluateBoard g' = 9550
       /\ resultValue (getEndgameBonus easy g' (sanMove "Re1#")
                                       (mkWorld g' [])) = Some 0
       /\ resultValue (rootValue easy (difficultyDepth easy)
                                 (sanMove "Re1#") (fresh backRank))
          = Some 9550.
Proof.
  split; [reflexivity|].
  eexists. split; [reflexivity|].
  repeat split; vm_compute; reflexivity.
Qed.

(** * Further properties of the search and of the selector *)

Section Further.
Context {E : RulesEngine}.

(** X1. For every position, depth and window that is not empty, [minimax]
    and the exhaustive search both return, and their values agree inside
    the window: both are at most [alpha], or both are at least [beta], or
    they are equal; in particular they are equal when the exhaustive
    value lies strictly between the bounds. *)
Theorem pruning_agrees_inside_the_window (laws : Lawful E) (depth : nat)
        (maximizingPlayer : bool) (alpha beta : Z) (w : World) :
  alpha < beta ->
  exists pruned exhaustive,
    resultValue (minimax depth maximizingPlayer alpha beta w) = Some pruned
    /\ resultValue (exhaustiveMinimax depth maximizingPlayer w)
       = Some exhaustive
    /\ agreeInside alpha beta pruned exhaustive
    /\ (alpha < exhaustive < beta -> pruned = exhaustive).
Proof.
  intro Hwin. destruct w as [g tr].
  destruct (minimax_computes laws depth maximizingPlayer alpha beta g tr)
    as [t1 [Hrun1 _]].
  destruct (exhaustiveMinimax_computes laws depth maximizingPlayer g tr)
    as [t2 [Hrun2 _]].
  pose proof (searchValue_agrees depth maximizingPlayer alpha beta g Hwin)
    as Hagree.
  exists (searchValue depth maximizingPlayer alpha beta g),
         (fullValue depth maximizingPlayer g).
  rewrite Hrun1, Hrun2.
  split; [reflexivity | split; [reflexivity | split; [exact Hagree|]]].
  unfold agreeInside in Hagree. lia.
Qed.

(** X2. With the root bounds -10000 and 10000, at depth 0 and at every
    depth from 2 on, [minimax] returns the value of the exhaustive
    search, for every position and either player. *)
Theorem pruning_keeps_the_value_off_depth_one (laws : Lawful E)
        (depth : nat) (maximizingPlayer : bool) (w : World) :
  depth <> 1%nat ->
  exists v,
    resultValue (minimax depth maximizingPlayer (-10000) 10000 w) = Some v
    /\ resultValue (exhaustiveMinimax depth maximizingPlayer w) = Some v.
Proof.
  intro Hd. destruct w as [g tr].
  destruct (minimax_computes laws depth maximizingPlayer (-10000) 10000 g tr)
    as [t1 [Hrun1 _]].
  destruct (exhaustiveMinimax_computes laws depth maximizingPlayer g tr)
    as [t2 [Hrun2 _]].
  exists (fullValue depth maximizingPlayer g).
  rewrite Hrun1, Hrun2, (searchValue_root_window depth maximizingPlayer g Hd).
  split; reflexivity.
Qed.

(** X3. The search part of [makeAIMove] computes a score for every legal
    move and ends normally; it plays no move when every score is below
    -9999, and otherwise it plays the last, in enumeration order, of the
    moves with the greatest score. *)
Theorem search_plays_the_last_best_move (laws : Lawful E)
        (difficulty : Difficulty) (w : World) :
  exists score,
    (forall m, In m (moves (live w)) ->
       resultValue (rootValue difficulty (difficultyDepth difficulty) m w)
       = Some (score m))
    /\ exists o w',
         searchSelect difficulty (moves (live w)) w = Ok o w'
         /\ ((o = NoMove
              /\ forall x, In x (moves (live w)) -> score x < -9999)
             \/ exists m,
                  o = SearchMove m
                  /\ -9999 <= score m
                  /\ lastMaximal score (moves (live w)) m).
Proof.
  destruct w as [g tr]. exists (rootScore difficulty g). split.
  - intros m Hm.
    destruct (rootValue_computes laws difficulty m g tr Hm) as [t [Hrun _]].
    rewrite Hrun. reflexivity.
  - apply searchSelect_runs. exact laws.
Qed.

Lemma patternBonus_lower (pat : EndgamePattern) (tempGame : Chess)
      (bonus : Z) :
  bonus <= patternBonus pat tempGame bonus.
Proof.
  unfold patternBonus.
  assert (Hfold : forall squares b,
            b <= fold_left
                   (fun bonus square =>
                      match get tempGame square with
                      | Some piece =>
                          if isWhite (color piece) then bonus else bonus + 50
                      | None => bonus
                      end) squares b).
  { induction squares as [|sq squares IH]; intro b; simpl; [lia|].
    eapply Z.le_trans; [|apply IH].
    destruct (get tempGame sq) as [piece|]; [|lia].
    destruct (isWhite (color piece)); lia. }
  eapply Z.le_trans; [|apply Hfold].
  destruct (includes (pattern pat) "mate"); [|lia].
  destruct (isCheckmate tempGame); [lia|].
  destruct (isCheck tempGame); lia.
Qed.

Lemma patternsValue_lower (position : Chess) (moveObj : Move)
      (patterns : list EndgamePattern) :
  forall bonus, bonus <= patternsValue position moveObj patterns bonus.
Proof.
  induction patterns as [|pat rest IH]; intro bonus; simpl; [lia|].
  destruct (move (load (fen position)) (BySan (san moveObj))) as [[m g1]|].
  - eapply Z.le_trans; [apply (patternBonus_lower pat g1) | apply IH].
  - apply IH.
Qed.

Lemma bonusValue_nonneg (difficulty : Difficulty) (position : Chess)
      (moveObj : Move) :
  0 <= bonusValue difficulty position moveObj.
Proof.
  unfold bonusValue. destruct (negb (isEndgame position)); [lia|].
  apply patternsValue_lower.
Qed.

(** X4. At difficulty hard, the search part of [makeAIMove] plays a move
    whenever there is a legal one: every root score is at least -9999
    there, so the move played is the last of the moves with the greatest
    score. *)
Theorem hard_search_always_plays (laws : Lawful E) (w : World) :
  moves (live w) <> [] ->
  exists m w' score,
    searchSelect hard (moves (live w)) w = Ok (SearchMove m) w'
    /\ (forall x, In x (moves (live w)) ->
          resultValue (rootValue hard (difficultyDepth hard) x w)
          = Some (score x))
    /\ lastMaximal score (moves (live w)) m.
Proof.
  intro Hne. destruct w as [g tr]. cbn [live] in *.
  destruct (searchSelect_runs laws hard g tr)
    as [o [w' [Hs [[_ Hlow] | [m [-> [_ Hlast]]]]]]].
  - destruct (moves g) as [|x l] eqn:Hmoves; [contradiction|].
    specialize (Hlow x (or_introl eq_refl)).
    unfold rootScore in Hlow. simpl difficultyDepth in Hlow.
    pose proof (searchValue_min_lower 0 (-10000) 10000
                                      (after g (ByObject x))).
    pose proof (bonusValue_nonneg hard (after g (ByObject x)) x).
    simpl Nat.sub in Hlow. lia.
  - exists m, w', (rootScore hard g).
    split; [exact Hs | split; [|exact Hlast]].
    intros x Hx.
    destruct (rootValue_computes laws hard x g tr Hx) as [t [Hrun _]].
    rewrite Hrun. reflexivity.
Qed.

Lemma patternsValue_rejected (position : Chess) (moveObj : Move)
      (patterns : list EndgamePattern) (bonus : Z) :
  move (load (fen position)) (BySan (san moveObj)) = None ->
  patternsValue position moveObj patterns bonus = bonus.
Proof.
  intro H. induction patterns as [|pat rest IH]; simpl; [reflexivity|].
  rewrite H. exact IH.
Qed.

(** X5. For a position without a legal move, a checkmate in particular,
    [getEndgameBonus] returns 0 for every move: the move is rejected on
    the private copy for every pattern.  This is the position
    [makeAIMove] hands over for a candidate that mates. *)
Theorem getEndgameBonus_is_zero_without_legal_moves (laws : Lawful E)
        (difficulty : Difficulty) (position : Chess) (moveObj : Move)
        (w : World) :
  moves position = [] ->
  resultValue (getEndgameBonus difficulty position moveObj w) = Some 0.
Proof.
  intro Hnone. destruct w as [g tr].
  destruct (getEndgameBonus_computes difficulty position moveObj g tr)
    as [t [Hrun _]].
  rewrite Hrun. simpl. f_equal. unfold bonusValue.
  destruct (negb (isEndgame position)); [reflexivity|].
  apply patternsValue_rejected.
  destruct (move (load (fen position)) (BySan (san moveObj)))
    as [[m g1]|] eqn:Hmove; [|reflexivity].
  apply (move_sound E laws) in Hmove.
  rewrite (load_fen_moves E laws), Hnone in Hmove. contradiction.
Qed.

(** X6. When the game is not over, the opening line has a move at the
    current move index and the rules engine accepts it, [makeAIMove]
    plays that move on the live position and searches nothing. *)
Theorem accepted_book_move_is_played (difficulty : Difficulty)
        (moveCount : nat) (selectedOpening : list string) (w : World)
        (m : Move) (g' : Chess) :
  gameIsOver (live w) = false ->
  (moveCount < List.length selectedOpening)%nat ->
  move (live w) (BySan (nth moveCount selectedOpening "")) = Some (m, g') ->
  makeAIMove difficulty moveCount selectedOpening w
  = Ok (BookMove m) (mkWorld g' (trace w ++ [EvMove (san m)])).
Proof.
  intros Hover Hlt Hmove. unfold gameIsOver in Hover.
  unfold makeAIMove, bind at 1, getLive. rewrite Hover.
  unfold bind at 1, bookAttempt. apply Nat.ltb_lt in Hlt. rewrite Hlt.
  unfold tryCatch, bind, positionMove, ret. rewrite Hmove. reflexivity.
Qed.

(** X7. When the move index is at or past the end of the opening line,
    the book proposes nothing: nothing is tried on the live position, and
    [makeAIMove] is its game-over test followed by its search part. *)
Theorem book_is_silent_past_its_end (difficulty : Difficulty)
        (moveCount : nat) (selectedOpening : list string) (w : World) :
  (List.length selectedOpening <= moveCount)%nat ->
  bookAttempt moveCount selectedOpening w = Ok None w
  /\ makeAIMove difficulty moveCount selectedOpening w
     = (if gameIsOver (live w) then Ok GameOver w
        else searchSelect difficulty (moves (live w)) w).
Proof.
  intro Hle.
  assert (Hbook : bookAttempt moveCount selectedOpening w = Ok None w).
  { unfold bookAttempt.
    destruct (Nat.ltb_spec moveCount (List.length selectedOpening));
      [lia | reflexivity]. }
  split; [exact Hbook|].
  unfold makeAIMove, bind at 1, getLive, gameIsOver.
  destruct (isGameOver (live w) || isDraw (live w)
            || (List.length (moves (live w)) =? 0)%nat); [reflexivity|].
  unfold bind at 1. rewrite Hbook. reflexivity.
Qed.

(** X8. When the rules engine reports the game over or drawn, or
    enumerates no legal move, [makeAIMove] signals game over and touches
    nothing: no move is tried, none is played. *)
Theorem finished_game_is_signalled (difficulty : Difficulty)
        (moveCount : nat) (selectedOpening : list string) (w : World) :
  isGameOver (live w) = true \/ isDraw (live w) = true
  \/ moves (live w) = [] ->
  makeAIMove difficulty moveCount selectedOpening w = Ok GameOver w.
Proof.
  intro H. unfold makeAIMove, bind at 1, getLive.
  assert (Hover : isGameOver (live w) || isDraw (live w)
                  || (List.length (moves (live w)) =? 0)%nat = true).
  { destruct H as [-> | [-> | ->]].
    - reflexivity.
    - rewrite orb_true_r. reflexivity.
    - rewrite orb_true_r. reflexivity. }
  rewrite Hover. reflexivity.
Qed.

End Further.

(** On [twoMates] the two values are 10240 and 10570, both at least
    [beta]. *)
Lemma pruning_agrees_inside_the_window_witness :
  exists pruned exhaustive,
    resultValue (minimax 1 true (-10000) 10000 (fresh twoMates))
    = Some pruned
    /\ resultValue (exhaustiveMinimax 1 true (fresh twoMates))
       = Some exhaustive
    /\ agreeInside (-10000) 10000 pruned exhaustive
    /\ (-10000 < exhaustive < 10000 -> pruned = exhaustive).
Proof.
  apply (pruning_agrees_inside_the_window tree_lawful 1 true (-10000) 10000
           (fresh twoMates)).
  lia.
Defined.

(** Depth 2 on [onlyMate]. *)
Lemma pruning_keeps_the_value_off_depth_one_witness :
  exists v,
    resultValue (minimax 2 true (-10000) 10000 (fresh onlyMate)) = Some v
    /\ resultValue (exhaustiveMinimax 2 true (fresh onlyMate)) = Some v.
Proof.
  apply (pruning_keeps_the_value_off_depth_one tree_lawful 2 true
           (fresh onlyMate)).
  discriminate.
Defined.

(** The search part on [onlyMate], at difficulty intermediate. *)
Lemma search_plays_the_last_best_move_witness :
  exists score,
    (forall m, In m (moves (live (fresh onlyMate))) ->
       resultValue (rootValue intermediate (difficultyDepth intermediate) m
                              (fresh onlyMate))
       = Some (score m))
    /\ exists o w',
         searchSelect intermediate (moves (live (fresh onlyMate)))
                      (fresh onlyMate) = Ok o w'
         /\ ((o = NoMove
              /\ forall x, In x (moves (live (fresh onlyMate))) ->
                           score x < -9999)
             \/ exists m,
                  o = SearchMove m
                  /\ -9999 <= score m
                  /\ lastMaximal score (moves (live (fresh onlyMate))) m).
Proof.
  exact (search_plays_the_last_best_move tree_lawful intermediate
           (fresh onlyMate)).
Defined.

(** The search part on [onlyMate], at difficulty hard. *)
Lemma hard_search_always_plays_witness :
  exists m w' score,
    searchSelect hard (moves (live (fresh onlyMate))) (fresh onlyMate)
    = Ok (SearchMove m) w'
    /\ (forall x, In x (moves (live (fresh onlyMate))) ->
          resultValue (rootValue hard (difficultyDepth hard) x
                                 (fresh onlyMate))
          = Some (score x))
    /\ lastMaximal score (moves (live (fresh onlyMate))) m.
Proof.
  apply (hard_search_always_plays tree_lawful (fresh onlyMate)).
  discriminate.
Defined.

(** The checkmate that [Rxc1#] leads to, and any move tried there. *)
Lemma getEndgameBonus_is_zero_without_legal_moves_witness :
  resultValue (getEndgameBonus easy (gameAt matedAtC1) (sanMove "Rxc1#")
                               (fresh matedAtC1)) = Some 0.
Proof.
  apply (getEndgameBonus_is_zero_without_legal_moves tree_lawful easy
           (gameAt matedAtC1) (sanMove "Rxc1#") (fresh matedAtC1)).
  reflexivity.
Defined.

(** At move index 1 the easy line [e4 e5] proposes [e5], which Black can
    play after 1. e4. *)
Lemma accepted_book_move_is_played_witness :
  makeAIMove easy 1 ["e4"; "e5"] (fresh afterE4)
  = Ok (BookMove (sanMove "e5"))
       (mkWorld (after (gameAt afterE4) (BySan "e5")) [EvMove "e5"]).
Proof.
  apply (accepted_book_move_is_played easy 1 ["e4"; "e5"] (fresh afterE4)
           (sanMove "e5") (after (gameAt afterE4) (BySan "e5"))).
  - reflexivity.
  - simpl. lia.
  - reflexivity.
Defined.

(** Past the end of the easy line [e4 e5], on [backRank]. *)
Lemma book_is_silent_past_its_end_witness :
  bookAttempt 40 ["e4"; "e5"] (fresh backRank) = Ok None (fresh backRank)
  /\ makeAIMove easy 40 ["e4"; "e5"] (fresh backRank)
     = (if gameIsOver (live (fresh backRank))
        then Ok GameOver (fresh backRank)
        else searchSelect easy (moves (live (fresh backRank)))
                          (fresh backRank)).
Proof.
  apply (book_is_silent_past_its_end easy 40 ["e4"; "e5"] (fresh backRank)).
  simpl. lia.
Defined.

(** White is checkmated after [Rxc1#]. *)
Lemma finished_game_is_signalled_witness :
  makeAIMove hard 41 ["d4"; "d5"; "c4"] (fresh matedAtC1)
  = Ok GameOver (fresh matedAtC1).
Proof.
  apply (finished_game_is_signalled hard 41 ["d4"; "d5"; "c4"]
           (fresh matedAtC1)).
  left. reflexivity.
Defined.

(** * The evaluator's symmetry, the endgame bonus and the cost of the search *)

(** ** The evaluator seen from the other side *)

Lemma sumOver_opp {A : Type} (f : A -> Z) (l : list A) :
  sumOver (fun x => - f x) l = - sumOver f l.
Proof. induction l as [|x l IH]; simpl; [reflexivity | rewrite IH; lia]. Qed.

Lemma sumOver_ranks_reversed (f : nat -> Z) :
  sumOver (fun j => f (7 - j)%nat) (seq 0 8) = sumOver f (seq 0 8).
Proof. simpl. lia. Qed.

Section EvaluatorSymmetry.
Context {E : RulesEngine}.

(** [evaluateBoard] is the sum of the two terms of every square, file by
    file, and the two flat terms. *)
Lemma evaluateBoard_by_files (position : Chess) :
  evaluateBoard position
  = sumOver (fun i =>
               sumOver (fun j => materialTerm position (i, j)
                                 + pawnTerm position (i, j)) (seq 0 8))
            (seq 0 8)
    + flatTerms position.
Proof.
  unfold evaluateBoard, flatTerms.
  rewrite (fold_left_ext_in _
     (fun total i =>
        total + sumOver (fun j => materialTerm position (i, j)
                                  + pawnTerm position (i, j)) (seq 0 8))).
  - rewrite fold_left_add_sumOver, Z.add_0_l.
    destruct (isCheck position), (isCheckmate position), (isDraw position);
      lia.
  - intros i _ total.
    rewrite (fold_left_ext_in _
       (fun total j => total + (materialTerm position (i, j)
                                + pawnTerm position (i, j)))).
    + apply fold_left_add_sumOver.
    + intros j Hj b. apply evaluateSquare_terms, in_seq_0_8, Hj.
Qed.

(** The terms of a square change sign when the board is turned round. *)
Lemma square_terms_mirrored (p q : Chess) (i j : nat) :
  mirrored p q -> (i <= 7)%nat -> (j <= 7)%nat ->
  materialTerm q (i, j) + pawnTerm q (i, j)
  = - (materialTerm p (i, (7 - j)%nat) + pawnTerm p (i, (7 - j)%nat)).
Proof.
  intros H Hi Hj. unfold materialTerm, pawnTerm.
  cbv beta iota delta [fst snd]. rewrite (H i j Hi Hj).
  destruct (get p (squareName i (7 - j))) as [[c t]|]; [|reflexivity].
  cbv beta iota zeta delta [option_map recolour opposite type color isPawn
                            sign ownRank].
  destruct c; destruct t; try lia.
  replace (7 - (7 - j))%nat with j by lia. lia.
Qed.

(** X9. The evaluator is colour-blind except for its two flat terms: when
    [q] is [p] seen from the other side (ranks reversed, colours
    exchanged), the material and pawn-table part of [evaluateBoard q] is
    the negation of that of [evaluateBoard p]; the 50 for a check and
    the 10000 for a checkmate are added with the same sign on both
    sides. *)
Theorem evaluateBoard_of_the_mirrored_position (p q : Chess) :
  mirrored p q ->
  evaluateBoard q - flatTerms q = - (evaluateBoard p - flatTerms p).
Proof.
  intro H. rewrite !evaluateBoard_by_files.
  set (T := fun i j => materialTerm p (i, j) + pawnTerm p (i, j)).
  assert (Hq :
    sumOver (fun i =>
               sumOver (fun j => materialTerm q (i, j) + pawnTerm q (i, j))
                       (seq 0 8)) (seq 0 8)
    = sumOver (fun i => - sumOver (T i) (seq 0 8)) (seq 0 8)).
  { apply sumOver_ext_in. intros i Hi. apply in_seq_0_8 in Hi.
    rewrite <- (sumOver_ranks_reversed (T i)), <- sumOver_opp.
    apply sumOver_ext_in. intros j Hj. apply in_seq_0_8 in Hj.
    apply square_terms_mirrored; assumption. }
  rewrite Hq, sumOver_opp. unfold T. lia.
Qed.

End EvaluatorSymmetry.

(** ** The endgame heuristic in closed form *)

Section EndgameBonus.
Context {E : RulesEngine}.

Lemma central_fold (tempGame : Chess) (squares : list string) :
  forall bonus,
    fold_left
      (fun bonus square =>
         match get tempGame square with
         | Some piece => if isWhite (color piece) then bonus else bonus + 50
         | None => bonus
         end) squares bonus
    = bonus + 50 * sumOver (blackOn tempGame) squares.
Proof.
  induction squares as [|sq squares IH]; intro bonus.
  - cbn [fold_left sumOver fold_right]. lia.
  - change (sumOver (blackOn tempGame) (sq :: squares))
      with (blackOn tempGame sq + sumOver (blackOn tempGame) squares).
    cbn [fold_left]. rewrite IH. unfold blackOn at 2.
    destruct (get tempGame sq) as [piece|]; [|lia].
    destruct (isWhite (color piece)); lia.
Qed.

Lemma patternBonus_worth (pat : EndgamePattern) (tempGame : Chess)
      (bonus : Z) :
  includes (pattern pat) "mate" = true ->
  patternBonus pat tempGame bonus = bonus + patternWorth tempGame.
Proof.
  intro H. unfold patternBonus, patternWorth. rewrite H, central_fold.
  destruct (isCheckmate tempGame); [lia|].
  destruct (isCheck tempGame); lia.
Qed.

Lemma blackOn_range (tempGame : Chess) (squares : list string) :
  0 <= sumOver (blackOn tempGame) squares
    <= Z.of_nat (List.length squares).
Proof.
  induction squares as [|sq squares IH].
  - simpl. lia.
  - change (sumOver (blackOn tempGame) (sq :: squares))
      with (blackOn tempGame sq + sumOver (blackOn tempGame) squares).
    change (List.length (sq :: squares)) with (S (List.length squares)).
    assert (0 <= blackOn tempGame sq <= 1).
    { unfold blackOn. destruct (get tempGame sq) as [piece|]; [|lia].
      destruct (isWhite (color piece)); lia. }
    lia.
Qed.

Lemma patternWorth_range (tempGame : Chess) :
  0 <= patternWorth tempGame <= 700.
Proof.
  unfold patternWorth.
  pose proof (blackOn_range tempGame centralSquares) as H.
  change (Z.of_nat (List.length centralSquares)) with 4 in H.
  destruct (isCheckmate tempGame); [lia|].
  destruct (isCheck tempGame); lia.
Qed.

(** The name of every catalogued pattern includes [mate]. *)
Lemma every_pattern_is_a_mate (difficulty : Difficulty)
      (pat : EndgamePattern) :
  In pat (endgamePatterns difficulty) ->
  includes (pattern pat) "mate" = true.
Proof.
  destruct difficulty; intros [<- | [<- | []]]; reflexivity.
Qed.

Lemma patternsValue_worth (position : Chess) (moveObj : Move)
      (patterns : list EndgamePattern) :
  (forall pat, In pat patterns -> includes (pattern pat) "mate" = true) ->
  forall bonus,
    patternsValue position moveObj patterns bonus
    = match move (load (fen position)) (BySan (san moveObj)) with
      | Some (_, tempGame) =>
          bonus + Z.of_nat (List.length patterns) * patternWorth tempGame
      | None => bonus
      end.
Proof.
  induction patterns as [|pat rest IH]; intros Hall bonus.
  - simpl. destruct (move (load (fen position)) (BySan (san moveObj)))
      as [[m t]|]; [lia | reflexivity].
  - assert (Hrest : forall p, In p rest -> includes (pattern p) "mate" = true)
      by (intros p Hp; apply Hall; right; exact Hp).
    change (patternsValue position moveObj (pat :: rest) bonus)
      with (match move (load (fen position)) (BySan (san moveObj)) with
            | Some (_, tempGame) =>
                patternsValue position moveObj rest
                              (patternBonus pat tempGame bonus)
            | None => patternsValue position moveObj rest bonus
            end).
    change (List.length (pat :: rest)) with (S (List.length rest)).
    destruct (move (load (fen position)) (BySan (san moveObj)))
      as [[m t]|] eqn:Hmove.
    + rewrite (IH Hrest).
      rewrite (patternBonus_worth pat t bonus (Hall pat (or_introl eq_refl))).
      lia.
    + rewrite (IH Hrest). reflexivity.
Qed.

(** [forEachPattern] tries the move once per pattern and touches nothing
    else. *)
Lemma forEachPattern_trace (position : Chess) (moveObj : Move)
      (patterns : list EndgamePattern) :
  forall bonus g tr,
    forEachPattern position moveObj patterns bonus (mkWorld g tr)
    = Ok (patternsValue position moveObj patterns bonus)
         (mkWorld g (tr ++ repeat (EvSimulate (san moveObj))
                                  (List.length patterns))).
Proof.
  induction patterns as [|pat rest IH]; intros bonus g tr.
  - simpl. rewrite app_nil_r. reflexivity.
  - simpl. unfold bind at 1. simpl.
    destruct (move (load (fen position)) (BySan (san moveObj))) as [[m g1]|];
      rewrite IH, <- app_assoc; reflexivity.
Qed.

(** X10. [getEndgameBonus] in closed form.  It leaves the live position
    as it is and tries the move on a private copy twice in an endgame
    (once per catalogued pattern) and never otherwise.  Its value is 0
    outside an endgame or when the copy rejects the move, and otherwise
    twice the worth of the position the move leads to: 500 for a
    checkmate, else 200 for a check, plus 50 for every central square
    that holds a black piece.  The value does not depend on the
    difficulty, and it lies between 0 and 1400. *)
Theorem getEndgameBonus_in_closed_form (difficulty : Difficulty)
        (position : Chess) (moveObj : Move) (w : World) :
  exists v,
    getEndgameBonus difficulty position moveObj w
    = Ok v (mkWorld (live w)
              (trace w ++ (if isEndgame position
                           then [EvSimulate (san moveObj);
                                 EvSimulate (san moveObj)]
                           else [])))
    /\ v = (if isEndgame position
            then match move (load (fen position)) (BySan (san moveObj)) with
                 | Some (_, tempGame) => 2 * patternWorth tempGame
                 | None => 0
                 end
            else 0)
    /\ 0 <= v <= 1400.
Proof.
  destruct w as [g tr]. unfold getEndgameBonus. cbn [live trace].
  destruct (isEndgame position); cbn [negb].
  - rewrite forEachPattern_trace.
    rewrite (patternsValue_worth position moveObj (endgamePatterns difficulty)
               (every_pattern_is_a_mate difficulty)).
    assert (Hlen : List.length (endgamePatterns difficulty) = 2%nat)
      by (destruct difficulty; reflexivity).
    rewrite Hlen. cbn [repeat].
    eexists. split; [reflexivity|].
    destruct (move (load (fen position)) (BySan (san moveObj))) as [[m t]|].
    + pose proof (patternWorth_range t). split; lia.
    + split; lia.
  - exists 0. rewrite app_nil_r. split; [reflexivity | split; lia].
Qed.

End EndgameBonus.

(** ** Counting the calls of a trace *)

Lemma calls_app (kind : Event -> bool) (t1 t2 : list Event) :
  calls kind (t1 ++ t2) = (calls kind t1 + calls kind t2)%nat.
Proof. unfold calls. rewrite filter_app, length_app. reflexivity. Qed.

Lemma calls_cons (kind : Event -> bool) (e : Event) (t : list Event) :
  calls kind (e :: t) = ((if kind e then 1 else 0) + calls kind t)%nat.
Proof. unfold calls. simpl. destruct (kind e); reflexivity. Qed.

(** A pass around fewer calls has fewer calls. *)
Lemma calls_pass_le (kind : Event -> bool) (s : string)
      (t1 t2 : list Event) :
  (calls kind t1 <= calls kind t2)%nat ->
  (calls kind (EvMove s :: t1 ++ [EvUndo])
   <= calls kind (EvMove s :: t2 ++ [EvUndo]))%nat.
Proof. intro H. rewrite !calls_cons, !calls_app. lia. Qed.

(** [peak] over a first part that leaves [k] moves pending. *)
Lemma peak_app_le (t1 t2 : list Event) (bound : nat) :
  forall n k,
    pending n t1 = Some k ->
    (peak n t1 <= bound)%nat -> (peak k t2 <= bound)%nat ->
    (peak n (t1 ++ t2) <= bound)%nat.
Proof.
  induction t1 as [|e t1 IH]; intros n k Hpend H1 H2.
  - simpl in Hpend. injection Hpend as <-. exact H2.
  - destruct e; cbn [app peak pending] in *.
    + apply Nat.max_lub; [lia|].
      apply (IH (S n) k); [assumption | lia | assumption].
    + destruct n as [|n]; [discriminate|]. cbn [Nat.pred] in *.
      apply Nat.max_lub; [lia|].
      apply (IH n k); [assumption | lia | assumption].
    + apply (IH n k); assumption.
    + apply (IH n k); assumption.
Qed.

Lemma peak_lower (t : list Event) : forall n, (n <= peak n t)%nat.
Proof.
  induction t as [|e t IH]; intro n; cbn [peak]; [lia|].
  destruct e; try apply IH; lia.
Qed.

(** One pass: a move, a balanced part that stays below the bound, the
    undo. *)
Lemma peak_pass_le (s : string) (t rest : list Event) (n bound : nat) :
  pending (S n) t = Some (S n) ->
  (peak (S n) t <= bound)%nat -> (peak n rest <= bound)%nat ->
  (peak n ((EvMove s :: t ++ [EvUndo]) ++ rest) <= bound)%nat.
Proof.
  intros Hpend Ht Hrest.
  pose proof (peak_lower t (S n)) as Hlow.
  change ((EvMove s :: t ++ [EvUndo]) ++ rest)
    with (EvMove s :: (t ++ [EvUndo]) ++ rest).
  rewrite <- app_assoc. cbn [peak].
  apply Nat.max_lub; [lia|].
  apply (peak_app_le t ([EvUndo] ++ rest) bound (S n) (S n));
    [assumption | assumption |].
  cbn [app peak Nat.pred]. apply Nat.max_lub; [lia | exact Hrest].
Qed.

Lemma pending_pass (s : string) (t rest : list Event) (n : nat) :
  pending (S n) t = Some (S n) ->
  pending n ((EvMove s :: t ++ [EvUndo]) ++ rest) = pending n rest.
Proof.
  intro H.
  change ((EvMove s :: t ++ [EvUndo]) ++ rest)
    with (EvMove s :: (t ++ [EvUndo]) ++ rest).
  rewrite <- app_assoc. cbn [pending]. rewrite pending_app, H. reflexivity.
Qed.

(** ** The calls the search makes *)

Section SearchTraces.
Context {E : RulesEngine}.

Lemma maxTrace_calls_le (kind : Event -> bool)
      (value : Z -> Z -> Chess -> Z)
      (traced : Z -> Z -> Chess -> list Event)
      (full : Chess -> list Event) (g : Chess) :
  (forall a b g', (calls kind (traced a b g') <= calls kind (full g'))%nat) ->
  forall possibleMoves alpha beta,
    (calls kind (maxTrace value traced g possibleMoves alpha beta)
     <= calls kind (allTrace full g possibleMoves))%nat.
Proof.
  intros Hrec possibleMoves.
  induction possibleMoves as [|s rest IH]; intros alpha beta;
    [apply Nat.le_refl|].
  cbn [maxTrace allTrace]. rewrite !calls_app.
  pose proof (calls_pass_le kind s _ _ (Hrec alpha beta (after g (BySan s)))).
  destruct (beta <=? Z.max alpha (value alpha beta (after g (BySan s)))).
  - change (calls kind []) with 0%nat. lia.
  - specialize (IH (Z.max alpha (value alpha beta (after g (BySan s)))) beta).
    lia.
Qed.

Lemma minTrace_calls_le (kind : Event -> bool)
      (value : Z -> Z -> Chess -> Z)
      (traced : Z -> Z -> Chess -> list Event)
      (full : Chess -> list Event) (g : Chess) :
  (forall a b g', (calls kind (traced a b g') <= calls kind (full g'))%nat) ->
  forall possibleMoves alpha beta,
    (calls kind (minTrace value traced g possibleMoves alpha beta)
     <= calls kind (allTrace full g possibleMoves))%nat.
Proof.
  intros Hrec possibleMoves.
  induction possibleMoves as [|s rest IH]; intros alpha beta;
    [apply Nat.le_refl|].
  cbn [minTrace allTrace]. rewrite !calls_app.
  pose proof (calls_pass_le kind s _ _ (Hrec alpha beta (after g (BySan s)))).
  destruct (Z.min beta (value alpha beta (after g (BySan s))) <=? alpha).
  - change (calls kind []) with 0%nat. lia.
  - specialize (IH alpha (Z.min beta (value alpha beta (after g (BySan s))))).
    lia.
Qed.

(** Pruning adds no call of any kind. *)
Lemma searchTrace_calls_le (kind : Event -> bool) (depth : nat) :
  forall maximizingPlayer alpha beta g,
    (calls kind (searchTrace depth maximizingPlayer alpha beta g)
     <= calls kind (fullTrace depth maximizingPlayer g))%nat.
Proof.
  induction depth as [|depth IH]; intros maximizingPlayer alpha beta g;
    [apply Nat.le_refl|].
  cbn [searchTrace fullTrace]. destruct maximizingPlayer; cbn [negb].
  - apply maxTrace_calls_le. intros a b g'. apply IH.
  - apply minTrace_calls_le. intros a b g'. apply IH.
Qed.

Lemma maxTrace_pending (value : Z -> Z -> Chess -> Z)
      (traced : Z -> Z -> Chess -> list Event) (g : Chess) (n : nat) :
  (forall a b g', pending (S n) (traced a b g') = Some (S n)) ->
  forall possibleMoves alpha beta,
    pending n (maxTrace value traced g possibleMoves alpha beta) = Some n.
Proof.
  intros Hrec possibleMoves.
  induction possibleMoves as [|s rest IH]; intros alpha beta;
    [reflexivity|].
  cbn [maxTrace]. rewrite (pending_pass _ _ _ _ (Hrec _ _ _)).
  destruct (beta <=? Z.max alpha (value alpha beta (after g (BySan s))));
    [reflexivity | apply IH].
Qed.

Lemma minTrace_pending (value : Z -> Z -> Chess -> Z)
      (traced : Z -> Z -> Chess -> list Event) (g : Chess) (n : nat) :
  (forall a b g', pending (S n) (traced a b g') = Some (S n)) ->
  forall possibleMoves alpha beta,
    pending n (minTrace value traced g possibleMoves alpha beta) = Some n.
Proof.
  intros Hrec possibleMoves.
  induction possibleMoves as [|s rest IH]; intros alpha beta;
    [reflexivity|].
  cbn [minTrace]. rewrite (pending_pass _ _ _ _ (Hrec _ _ _)).
  destruct (Z.min beta (value alpha beta (after g (BySan s))) <=? alpha);
    [reflexivity | apply IH].
Qed.

Lemma searchTrace_pending (depth : nat) :
  forall maximizingPlayer alpha beta g n,
    pending n (searchTrace depth maximizingPlayer alpha beta g) = Some n.
Proof.
  induction depth as [|depth IH]; intros maximizingPlayer alpha beta g n;
    [reflexivity|].
  cbn [searchTrace]. destruct maximizingPlayer.
  - apply maxTrace_pending. intros a b g'. apply IH.
  - apply minTrace_pending. intros a b g'. apply IH.
Qed.

Lemma maxTrace_peak (value : Z -> Z -> Chess -> Z)
      (traced : Z -> Z -> Chess -> list Event) (g : Chess)
      (n bound : nat) :
  (n <= bound)%nat ->
  (forall a b g', pending (S n) (traced a b g') = Some (S n)) ->
  (forall a b g', (peak (S n) (traced a b g') <= bound)%nat) ->
  forall possibleMoves alpha beta,
    (peak n (maxTrace value traced g possibleMoves alpha beta) <= bound)%nat.
Proof.
  intros Hn Hpend Hrec possibleMoves.
  induction possibleMoves as [|s rest IH]; intros alpha beta;
    [exact Hn|].
  cbn [maxTrace]. apply peak_pass_le; [apply Hpend | apply Hrec |].
  destruct (beta <=? Z.max alpha (value alpha beta (after g (BySan s))));
    [exact Hn | apply IH].
Qed.

Lemma minTrace_peak (value : Z -> Z -> Chess -> Z)
      (traced : Z -> Z -> Chess -> list Event) (g : Chess)
      (n bound : nat) :
  (n <= bound)%nat ->
  (forall a b g', pending (S n) (traced a b g') = Some (S n)) ->
  (forall a b g', (peak (S n) (traced a b g') <= bound)%nat) ->
  forall possibleMoves alpha beta,
    (peak n (minTrace value traced g possibleMoves alpha beta) <= bound)%nat.
Proof.
  intros Hn Hpend Hrec possibleMoves.
  induction possibleMoves as [|s rest IH]; intros alpha beta;
    [exact Hn|].
  cbn [minTrace]. apply peak_pass_le; [apply Hpend | apply Hrec |].
  destruct (Z.min beta (value alpha beta (after g (BySan s))) <=? alpha);
    [exact Hn | apply IH].
Qed.

(** With [n] moves pending when it is called, a search of depth [depth]
    never has more than [n + depth] pending. *)
Lemma searchTrace_peak (depth : nat) :
  forall maximizingPlayer alpha beta g n,
    (peak n (searchTrace depth maximizingPlayer alpha beta g)
     <= n + depth)%nat.
Proof.
  induction depth as [|depth IH]; intros maximizingPlayer alpha beta g n.
  - cbn [searchTrace peak]. lia.
  - cbn [searchTrace]. destruct maximizingPlayer.
    + apply maxTrace_peak; [lia | intros; apply searchTrace_pending |].
      intros a b g'. specialize (IH false a b g' (S n)). lia.
    + apply minTrace_peak; [lia | intros; apply searchTrace_pending |].
      intros a b g'. specialize (IH true a b g' (S n)). lia.
Qed.

Section Runs.
Hypothesis laws : Lawful E.

(** One pass of either loop, with the calls it makes. *)
Lemma pass_trace (recurse : M Z) (value : Chess -> Z)
      (traced : Chess -> list Event) (g : Chess) (s : string)
      (tr : list Event) :
  (forall g' tr', recurse (mkWorld g' tr')
                  = Ok (value g') (mkWorld g' (tr' ++ traced g'))) ->
  In s (map san (moves g)) ->
  (positionMove (BySan s) ;; evaluation <- recurse ;;
   positionUndo ;; ret evaluation) (mkWorld g tr)
  = Ok (value (after g (BySan s)))
       (mkWorld g (tr ++ EvMove s :: traced (after g (BySan s)) ++ [EvUndo])).
Proof.
  intros Hrec Hs.
  destruct (san_enumerated laws g s Hs) as [m [g' [_ [Hsan [Hmove Hundo]]]]].
  unfold bind, positionMove, positionUndo, ret, after. simpl.
  rewrite Hmove, Hrec. simpl. rewrite Hundo, Hsan.
  rewrite <- !app_assoc. reflexivity.
Qed.

Ltac split_pass Hrun :=
  unfold bind, ret in Hrun; simpl; unfold bind at 1;
  match goal with
  | |- context [positionMove ?a ?w] =>
      destruct (positionMove a w) as [? ?w1|?]; [|discriminate Hrun]
  end;
  unfold bind at 1;
  match goal with
  | |- context [match ?r ?w1 with Ok _ _ => _ | Throw _ => _ end] =>
      destruct (r w1) as [? ?w2|?]; [|discriminate Hrun]
  end;
  unfold bind at 1;
  match goal with
  | |- context [positionUndo ?w2] =>
      destruct (positionUndo w2) as [? ?w3|?]; [|discriminate Hrun]
  end;
  injection Hrun as -> ->.

Lemma forMax_trace (recurse : Z -> Z -> M Z)
      (value : Z -> Z -> Chess -> Z)
      (traced : Z -> Z -> Chess -> list Event) (g : Chess) :
  (forall alpha beta g' tr',
      recurse alpha beta (mkWorld g' tr')
      = Ok (value alpha beta g') (mkWorld g' (tr' ++ traced alpha beta g'))) ->
  forall possibleMoves, incl possibleMoves (map san (moves g)) ->
  forall maxEval alpha beta tr,
    forMax recurse possibleMoves maxEval alpha beta (mkWorld g tr)
    = Ok (maxOver value g possibleMoves maxEval alpha beta)
         (mkWorld g (tr ++ maxTrace value traced g possibleMoves alpha beta)).
Proof.
  intros Hrec possibleMoves.
  induction possibleMoves as [|s rest IH]; intros Hin maxEval alpha beta tr.
  - simpl. rewrite app_nil_r. reflexivity.
  - assert (Hs : In s (map san (moves g))) by (apply Hin; left; reflexivity).
    assert (Hrest : incl rest (map san (moves g)))
      by (intros x Hx; apply Hin; right; exact Hx).
    pose proof (pass_trace (recurse alpha beta) (value alpha beta)
                  (traced alpha beta) g s tr (Hrec alpha beta) Hs) as Hrun.
    split_pass Hrun.
    destruct (beta <=? Z.max alpha (value alpha beta (after g (BySan s)))).
    + rewrite app_nil_r. reflexivity.
    + rewrite (IH Hrest), <- app_assoc. reflexivity.
Qed.

Lemma forMin_trace (recurse : Z -> Z -> M Z)
      (value : Z -> Z -> Chess -> Z)
      (traced : Z -> Z -> Chess -> list Event) (g : Chess) :
  (forall alpha beta g' tr',
      recurse alpha beta (mkWorld g' tr')
      = Ok (value alpha beta g') (mkWorld g' (tr' ++ traced alpha beta g'))) ->
  forall possibleMoves, incl possibleMoves (map san (moves g)) ->
  forall minEval alpha beta tr,
    forMin recurse possibleMoves minEval alpha beta (mkWorld g tr)
    = Ok (minOver value g possibleMoves minEval alpha beta)
         (mkWorld g (tr ++ minTrace value traced g possibleMoves alpha beta)).
Proof.
  intros Hrec possibleMoves.
  induction possibleMoves as [|s rest IH]; intros Hin minEval alpha beta tr.
  - simpl. rewrite app_nil_r. reflexivity.
  - assert (Hs : In s (map san (moves g))) by (apply Hin; left; reflexivity).
    assert (Hrest : incl rest (map san (moves g)))
      by (intros x Hx; apply Hin; right; exact Hx).
    pose proof (pass_trace (recurse alpha beta) (value alpha beta)
                  (traced alpha beta) g s tr (Hrec alpha beta) Hs) as Hrun.
    split_pass Hrun.
    destruct (Z.min beta (value alpha beta (after g (BySan s))) <=? alpha).
    + rewrite app_nil_r. reflexivity.
    + rewrite (IH Hrest), <- app_assoc. reflexivity.
Qed.

(** [minimax] returns [searchValue], gives the live position back and
    makes the calls of [searchTrace]. *)
Lemma minimax_trace (depth : nat) :
  forall maximizingPlayer alpha beta g tr,
    minimax depth maximizingPlayer alpha beta (mkWorld g tr)
    = Ok (searchValue depth maximizingPlayer alpha beta g)
         (mkWorld g (tr ++ searchTrace depth maximizingPlayer alpha beta g)).
Proof.
  induction depth as [|depth IH]; intros maximizingPlayer alpha beta g tr.
  - reflexivity.
  - simpl. unfold bind at 1. simpl.
    destruct maximizingPlayer.
    + apply forMax_trace; [intros; apply IH | apply incl_refl].
    + apply forMin_trace; [intros; apply IH | apply incl_refl].
Qed.

Lemma allMax_trace (recurse : M Z) (value : Chess -> Z)
      (traced : Chess -> list Event) (g : Chess) :
  (forall g' tr', recurse (mkWorld g' tr')
                  = Ok (value g') (mkWorld g' (tr' ++ traced g'))) ->
  forall possibleMoves, incl possibleMoves (map san (moves g)) ->
  forall maxEval tr,
    allMax recurse possibleMoves maxEval (mkWorld g tr)
    = Ok (maxOfAll value g possibleMoves maxEval)
         (mkWorld g (tr ++ allTrace traced g possibleMoves)).
Proof.
  intros Hrec possibleMoves.
  induction possibleMoves as [|s rest IH]; intros Hin maxEval tr.
  - simpl. rewrite app_nil_r. reflexivity.
  - assert (Hs : In s (map san (moves g))) by (apply Hin; left; reflexivity).
    assert (Hrest : incl rest (map san (moves g)))
      by (intros x Hx; apply Hin; right; exact Hx).
    pose proof (pass_trace recurse value traced g s tr Hrec Hs) as Hrun.
    split_pass Hrun.
    rewrite (IH Hrest), <- app_assoc. reflexivity.
Qed.

Lemma allMin_trace (recurse : M Z) (value : Chess -> Z)
      (traced : Chess -> list Event) (g : Chess) :
  (forall g' tr', recurse (mkWorld g' tr')
                  = Ok (value g') (mkWorld g' (tr' ++ traced g'))) ->
  forall possibleMoves, incl possibleMoves (map san (moves g)) ->
  forall minEval tr,
    allMin recurse possibleMoves minEval (mkWorld g tr)
    = Ok (minOfAll value g possibleMoves minEval)
         (mkWorld g (tr ++ allTrace traced g possibleMoves)).
Proof.
  intros Hrec possibleMoves.
  induction possibleMoves as [|s rest IH]; intros Hin minEval tr.
  - simpl. rewrite app_nil_r. reflexivity.
  - assert (Hs : In s (map san (moves g))) by (apply Hin; left; reflexivity).
    assert (Hrest : incl rest (map san (moves g)))
      by (intros x Hx; apply Hin; right; exact Hx).
    pose proof (pass_trace recurse value traced g s tr Hrec Hs) as Hrun.
    split_pass Hrun.
    rewrite (IH Hrest), <- app_assoc. reflexivity.
Qed.

Lemma exhaustiveMinimax_trace (depth : nat) :
  forall maximizingPlayer g tr,
    exhaustiveMinimax depth maximizingPlayer (mkWorld g tr)
    = Ok (fullValue depth maximizingPlayer g)
         (mkWorld g (tr ++ fullTrace depth maximizingPlayer g)).
Proof.
  induction depth as [|depth IH]; intros maximizingPlayer g tr.
  - reflexivity.
  - simpl. unfold bind at 1. simpl.
    destruct maximizingPlayer.
    + apply allMax_trace; [intros; apply IH | apply incl_refl].
    + apply allMin_trace; [intros; apply IH | apply incl_refl].
Qed.

End Runs.

End SearchTraces.

(** ** The calls of the move selector *)

Lemma pending_simulations (s : string) (k n : nat) :
  pending n (repeat (EvSimulate s) k) = Some n.
Proof. induction k as [|k IH]; [reflexivity | exact IH]. Qed.

Lemma peak_simulations (s : string) (k n : nat) :
  peak n (repeat (EvSimulate s) k) = n.
Proof. induction k as [|k IH]; [reflexivity | exact IH]. Qed.

Section SelectorTraces.
Context {E : RulesEngine}.

Lemma rootTrace_pending (difficulty : Difficulty) (g : Chess) (m : Move)
      (rest : list Event) (n : nat) :
  pending n (rootTrace difficulty g m ++ rest) = pending n rest.
Proof.
  unfold rootTrace. cbv zeta. apply pending_pass.
  rewrite pending_app, searchTrace_pending. apply pending_simulations.
Qed.

Lemma rootTrace_peak (difficulty : Difficulty) (g : Chess) (m : Move)
      (rest : list Event) (n : nat) :
  (peak n rest <= n + difficultyDepth difficulty)%nat ->
  (peak n (rootTrace difficulty g m ++ rest)
   <= n + difficultyDepth difficulty)%nat.
Proof.
  intro Hrest. unfold rootTrace. cbv zeta.
  assert (Hd : (S (difficultyDepth difficulty - 1)
                = difficultyDepth difficulty)%nat)
    by (destruct difficulty; reflexivity).
  apply peak_pass_le; [| | exact Hrest].
  - rewrite pending_app, searchTrace_pending. apply pending_simulations.
  - apply (peak_app_le _ _ _ (S n) (S n)).
    + apply searchTrace_pending.
    + pose proof (searchTrace_peak (difficultyDepth difficulty - 1) false
                    (-10000) 10000 (after g (ByObject m)) (S n)).
      lia.
    + rewrite peak_simulations. lia.
Qed.

(** The passes of the root loop over [possibleMoves] are balanced and
    never have more than [difficultyDepth] moves pending. *)
Lemma rootLoop_trace_bounds (difficulty : Difficulty) (g : Chess)
      (possibleMoves : list Move) (rest : list Event) :
  pending 0 rest = Some 0%nat ->
  (peak 0 rest <= difficultyDepth difficulty)%nat ->
  pending 0 (flat_map (rootTrace difficulty g) possibleMoves ++ rest)
  = Some 0%nat
  /\ (peak 0 (flat_map (rootTrace difficulty g) possibleMoves ++ rest)
      <= difficultyDepth difficulty)%nat.
Proof.
  intros Hpend Hpeak.
  induction possibleMoves as [|m l IH]; [split; assumption|].
  cbn [flat_map]. rewrite <- app_assoc. destruct IH as [IH1 IH2]. split.
  - rewrite rootTrace_pending. exact IH1.
  - apply (rootTrace_peak difficulty g m _ 0). exact IH2.
Qed.

Section Runs.
Hypothesis laws : Lawful E.

Lemma getEndgameBonus_trace (difficulty : Difficulty) (position : Chess)
      (moveObj : Move) (g : Chess) (tr : list Event) :
  getEndgameBonus difficulty position moveObj (mkWorld g tr)
  = Ok (bonusValue difficulty position moveObj)
       (mkWorld g (tr ++ repeat (EvSimulate (san moveObj))
                                (if isEndgame position
                                 then List.length (endgamePatterns difficulty)
                                 else 0%nat))).
Proof.
  unfold getEndgameBonus, bonusValue. destruct (isEndgame position).
  - apply forEachPattern_trace.
  - cbn [negb repeat]. rewrite app_nil_r. reflexivity.
Qed.

(** One pass of the root loop, with the calls it makes. *)
Lemma rootValue_trace (difficulty : Difficulty) (m : Move) (g : Chess)
      (tr : list Event) :
  In m (moves g) ->
  rootValue difficulty (difficultyDepth difficulty) m (mkWorld g tr)
  = Ok (rootScore difficulty g m)
       (mkWorld g (tr ++ rootTrace difficulty g m)).
Proof.
  intro Hm.
  destruct (move_enumerated E laws g m Hm) as [g' [Hobj _]].
  assert (Hundo : undo g' = g) by (eapply undo_move; eassumption).
  unfold rootValue, rootScore, rootTrace, after, bind, positionMove,
    positionUndo, getLive, ret. simpl.
  rewrite Hobj, (minimax_trace laws). simpl.
  rewrite getEndgameBonus_trace. simpl. rewrite Hundo.
  rewrite <- !app_assoc. reflexivity.
Qed.

(** The root loop makes one pass per candidate, in order, and its best
    move is one of the candidates. *)
Lemma rootLoop_trace (difficulty : Difficulty) (g : Chess) :
  forall possibleMoves, incl possibleMoves (moves g) ->
  forall bestMove bestValue tr,
    (forall b, bestMove = Some b -> In b (moves g)) ->
    exists best,
      rootLoop difficulty (difficultyDepth difficulty) possibleMoves
               bestMove bestValue (mkWorld g tr)
      = Ok best
           (mkWorld g (tr ++ flat_map (rootTrace difficulty g)
                                      possibleMoves))
      /\ (forall b, best = Some b -> In b (moves g)).
Proof.
  induction possibleMoves as [|m rest IH];
    intros Hin bestMove bestValue tr Hbest.
  - exists bestMove. simpl. rewrite app_nil_r.
    split; [reflexivity | exact Hbest].
  - assert (Hm : In m (moves g)) by (apply Hin; left; reflexivity).
    assert (Hrest : incl rest (moves g))
      by (intros x Hx; apply Hin; right; exact Hx).
    cbn [rootLoop flat_map]. unfold bind at 1.
    rewrite (rootValue_trace difficulty m g tr Hm), app_assoc.
    destruct (rootScore difficulty g m >=? bestValue).
    + apply (IH Hrest). intros b Hb. injection Hb as <-. exact Hm.
    + apply (IH Hrest). exact Hbest.
Qed.

(** The search part never throws; it makes one pass per legal move and
    then plays its best move, if it has one. *)
Lemma searchSelect_trace (difficulty : Difficulty) (g : Chess)
      (tr : list Event) :
  (exists m g',
      In m (moves g)
      /\ move g (ByObject m) = Some (m, g')
      /\ searchSelect difficulty (moves g) (mkWorld g tr)
         = Ok (SearchMove m)
              (mkWorld g' (tr ++ flat_map (rootTrace difficulty g) (moves g)
                              ++ [EvMove (san m)])))
  \/ searchSelect difficulty (moves g) (mkWorld g tr)
     = Ok NoMove
          (mkWorld g (tr ++ flat_map (rootTrace difficulty g) (moves g))).
Proof.
  destruct (rootLoop_trace difficulty g (moves g) (incl_refl _) None (-9999)
              tr) as [best [Hrun Hbest]]; [discriminate|].
  destruct best as [m|].
  - left. specialize (Hbest m eq_refl).
    destruct (move_enumerated E laws g m Hbest) as [g' [Hobj _]].
    exists m, g'. split; [exact Hbest | split; [exact Hobj|]].
    unfold searchSelect, bind at 1. rewrite Hrun.
    unfold bind, positionMove, ret. simpl. rewrite Hobj, <- app_assoc.
    reflexivity.
  - right. unfold searchSelect, bind at 1. rewrite Hrun. reflexivity.
Qed.

End Runs.

End SelectorTraces.

(** ** The values of the search *)

Lemma greatest_max (l : list Z) (floor x : Z) :
  greatest (Z.max floor x) l = Z.max x (greatest floor l).
Proof.
  unfold greatest. induction l as [|y l IH]; simpl; [lia | rewrite IH; lia].
Qed.

Lemma least_min (l : list Z) (ceiling x : Z) :
  least (Z.min ceiling x) l = Z.min x (least ceiling l).
Proof.
  unfold least. induction l as [|y l IH]; simpl; [lia | rewrite IH; lia].
Qed.

Lemma fold_max_floor (l : list Z) (a b : Z) :
  b <= a -> fold_right Z.max a l = Z.max a (fold_right Z.max b l).
Proof.
  intro H. induction l as [|y l IH]; cbn [fold_right]; [lia|].
  rewrite IH. lia.
Qed.

Lemma fold_min_ceiling (l : list Z) (a b : Z) :
  a <= b -> fold_right Z.min a l = Z.min a (fold_right Z.min b l).
Proof.
  intro H. induction l as [|y l IH]; cbn [fold_right]; [lia|].
  rewrite IH. lia.
Qed.

Lemma fold_max_range (l : list Z) (a lo hi : Z) :
  (forall x, In x l -> lo <= x <= hi) -> lo <= a <= hi ->
  lo <= fold_right Z.max a l <= hi.
Proof.
  intros Hl Ha. induction l as [|y l IH]; cbn [fold_right]; [exact Ha|].
  pose proof (Hl y (or_introl eq_refl)).
  assert (lo <= fold_right Z.max a l <= hi)
    by (apply IH; intros x Hx; apply Hl; right; exact Hx).
  lia.
Qed.

Lemma fold_min_range (l : list Z) (a lo hi : Z) :
  (forall x, In x l -> lo <= x <= hi) -> lo <= a <= hi ->
  lo <= fold_right Z.min a l <= hi.
Proof.
  intros Hl Ha. induction l as [|y l IH]; cbn [fold_right]; [exact Ha|].
  pose proof (Hl y (or_introl eq_refl)).
  assert (lo <= fold_right Z.min a l <= hi)
    by (apply IH; intros x Hx; apply Hl; right; exact Hx).
  lia.
Qed.

(** Over numbers between the sentinels, the floor -9999 changes nothing
    unless there is no number at all. *)
Lemma greatest_within (l : list Z) :
  (forall x, In x l -> -9999 <= x <= 9999) ->
  greatest (-9999) l = greatestOr (-9999) l
  /\ -9999 <= greatest (-9999) l <= 9999.
Proof.
  intro Hl. split; [|apply fold_max_range; [exact Hl | lia]].
  destruct l as [|x rest]; [reflexivity|].
  unfold greatest, greatestOr. cbn [fold_right].
  pose proof (Hl x (or_introl eq_refl)).
  rewrite (fold_max_floor rest x (-9999)); lia.
Qed.

Lemma least_within (l : list Z) :
  (forall x, In x l -> -9999 <= x <= 9999) ->
  least 9999 l = leastOr 9999 l
  /\ -9999 <= least 9999 l <= 9999.
Proof.
  intro Hl. split; [|apply fold_min_range; [exact Hl | lia]].
  destruct l as [|x rest]; [reflexivity|].
  unfold least, leastOr. cbn [fold_right].
  pose proof (Hl x (or_introl eq_refl)).
  rewrite (fold_min_ceiling rest x 9999); lia.
Qed.


Section SearchValues.
Context {E : RulesEngine}.

Lemma maxOver_upper (value : Z -> Z -> Chess -> Z) (g : Chess) (bound : Z)
      (possibleMoves : list string) :
  (forall a b g', value a b g' <= bound) ->
  forall maxEval alpha beta, maxEval <= bound ->
    maxOver value g possibleMoves maxEval alpha beta <= bound.
Proof.
  intro Hv. induction possibleMoves as [|s rest IH];
    intros maxEval alpha beta Hm; cbn [maxOver]; [exact Hm|].
  cbv zeta. pose proof (Hv alpha beta (after g (BySan s))).
  destruct (beta <=? Z.max alpha (value alpha beta (after g (BySan s))));
    [lia | apply IH; lia].
Qed.

Lemma searchValue_min_upper (depth : nat) (alpha beta : Z) (g : Chess) :
  searchValue (S depth) false alpha beta g <= 9999.
Proof. apply minOver_upper. Qed.

Lemma searchValue_max_upper (depth : nat) (alpha beta : Z) (g : Chess) :
  searchValue (S (S depth)) true alpha beta g <= 9999.
Proof.
  apply maxOver_upper; [|lia].
  intros a b g'. apply searchValue_min_upper.
Qed.

Lemma maxOfAll_greatest (value : Chess -> Z) (g : Chess)
      (possibleMoves : list string) :
  forall maxEval,
    maxOfAll value g possibleMoves maxEval
    = greatest maxEval
               (map (fun s => value (after g (BySan s))) possibleMoves).
Proof.
  induction possibleMoves as [|s rest IH]; intro maxEval; [reflexivity|].
  cbn [maxOfAll map]. rewrite IH, greatest_max. reflexivity.
Qed.

Lemma minOfAll_least (value : Chess -> Z) (g : Chess)
      (possibleMoves : list string) :
  forall minEval,
    minOfAll value g possibleMoves minEval
    = least minEval
            (map (fun s => value (after g (BySan s))) possibleMoves).
Proof.
  induction possibleMoves as [|s rest IH]; intro minEval; [reflexivity|].
  cbn [minOfAll map]. rewrite IH, least_min. reflexivity.
Qed.

(** With its leaves between the sentinels, the exhaustive search computes
    the minimax value, and that value lies between the sentinels. *)
Lemma fullValue_within (depth : nat) :
  forall maximizingPlayer g,
    leavesWithin depth g = true ->
    fullValue depth maximizingPlayer g
    = minimaxValue depth maximizingPlayer g
    /\ -9999 <= fullValue depth maximizingPlayer g <= 9999.
Proof.
  induction depth as [|depth IH]; intros maximizingPlayer g H.
  - cbn [leavesWithin] in H. apply andb_prop in H. destruct H as [H1 H2].
    apply Z.leb_le in H1. apply Z.leb_le in H2.
    cbn [fullValue]. split; [reflexivity | lia].
  - cbn [leavesWithin] in H. rewrite forallb_forall in H.
    assert (Hmap : forall player,
      map (fun s => fullValue depth player (after g (BySan s)))
          (map san (moves g))
      = map (fullValue depth player) (children g))
      by (intro player; unfold children; rewrite !map_map; reflexivity).
    assert (Heq : forall player,
      map (fullValue depth player) (children g)
      = map (minimaxValue depth player) (children g))
      by (intro player; apply map_ext_in; intros c Hc; apply IH, H, Hc).
    assert (Hin : forall player x,
      In x (map (fullValue depth player) (children g)) ->
      -9999 <= x <= 9999).
    { intros player x Hx. apply in_map_iff in Hx.
      destruct Hx as [c [<- Hc]]. apply IH, H, Hc. }
    cbn [fullValue minimaxValue]. cbv zeta. destruct maximizingPlayer.
    + rewrite maxOfAll_greatest, Hmap.
      destruct (greatest_within _ (Hin false)) as [Hg Hb].
      split; [rewrite Hg, Heq; reflexivity | exact Hb].
    + rewrite minOfAll_least, Hmap.
      destruct (least_within _ (Hin true)) as [Hg Hb].
      split; [rewrite Hg, Heq; reflexivity | exact Hb].
Qed.

Lemma searchValue_without_moves (depth : nat) (alpha beta : Z) (g : Chess) :
  moves g = [] -> searchValue (S depth) false alpha beta g = 9999.
Proof. intro H. cbn [searchValue]. rewrite H. reflexivity. Qed.

Lemma bonusValue_without_moves (laws : Lawful E) (difficulty : Difficulty)
      (position : Chess) (moveObj : Move) :
  moves position = [] -> bonusValue difficulty position moveObj = 0.
Proof.
  intro Hnone. unfold bonusValue.
  destruct (negb (isEndgame position)); [reflexivity|].
  apply patternsValue_rejected.
  destruct (move (load (fen position)) (BySan (san moveObj)))
    as [[m g1]|] eqn:Hmove; [|reflexivity].
  apply (move_sound E laws) in Hmove.
  rewrite (load_fen_moves E laws), Hnone in Hmove. contradiction.
Qed.

Lemma rootScore_hard_floor (g : Chess) (x : Move) :
  -9999 <= rootScore hard g x.
Proof.
  unfold rootScore. cbv zeta. cbn [difficultyDepth Nat.sub].
  pose proof (searchValue_min_lower 0 (-10000) 10000 (after g (ByObject x))).
  pose proof (bonusValue_nonneg hard (after g (ByObject x)) x).
  lia.
Qed.

End SearchValues.

(** ** What the search returns and costs, and when the selector moves *)

Section Coverage.
Context {E : RulesEngine}.

(** X11. Above depth 0 the value of [minimax] is capped by its two
    sentinels, for every position and window: a maximizing call returns
    at least -9999 and a minimizing call at most 9999, and from depth 2
    on the value lies between -9999 and 9999, whatever [evaluateBoard]
    returns at the leaves (a checkmate term of 10000 included). *)
Theorem minimax_stays_between_the_sentinels (laws : Lawful E) (depth : nat)
        (maximizingPlayer : bool) (alpha beta : Z) (w : World) :
  exists v,
    resultValue (minimax (S depth) maximizingPlayer alpha beta w) = Some v
    /\ (if maximizingPlayer then -9999 <= v else v <= 9999)
    /\ (depth <> 0%nat -> -9999 <= v <= 9999).
Proof.
  destruct w as [g tr].
  exists (searchValue (S depth) maximizingPlayer alpha beta g).
  rewrite (minimax_trace laws). split; [reflexivity|]. split.
  - destruct maximizingPlayer.
    + apply searchValue_max_lower.
    + apply searchValue_min_upper.
  - intro Hd. destruct depth as [|depth]; [contradiction|].
    destruct maximizingPlayer.
    + split; [apply searchValue_max_lower | apply searchValue_max_upper].
    + split; [apply searchValue_min_lower | apply searchValue_min_upper].
Qed.

(** X12. When every leaf of the search, that is every position [depth]
    legal moves below the live position, has an evaluation between -9999
    and 9999, [minimax] with the root bounds -10000 and 10000 returns the
    depth-limited minimax value of the live position, at every depth
    (depth 1 included) and for either player: the evaluation at depth 0,
    and above it the greatest (maximizing) or least (minimizing) of the
    values of the positions the legal moves lead to, uncapped, with -9999
    and 9999 only where there is no legal move.  Neither the pruning nor
    the two sentinels change the value then. *)
Theorem minimax_is_the_minimax_value (laws : Lawful E) (depth : nat)
        (maximizingPlayer : bool) (w : World) :
  leavesWithin depth (live w) = true ->
  resultValue (minimax depth maximizingPlayer (-10000) 10000 w)
  = Some (minimaxValue depth maximizingPlayer (live w)).
Proof.
  intro Hleaves. destruct w as [g tr]. rewrite (minimax_trace laws).
  cbn [resultValue live] in *. f_equal.
  destruct (fullValue_within depth maximizingPlayer g Hleaves) as [<- Hb].
  assert (Hwin : -10000 < 10000) by lia.
  pose proof (searchValue_agrees depth maximizingPlayer (-10000) 10000 g
                                 Hwin) as Hagree.
  unfold agreeInside in Hagree. lia.
Qed.

(** X13. Pruning never adds work: on every position, at every depth and
    for every window, [minimax] makes no more calls of any kind (moves
    applied, moves undone, evaluations) than the exhaustive search of the
    same depth. *)
Theorem pruning_never_adds_calls (laws : Lawful E) (depth : nat)
        (maximizingPlayer : bool) (alpha beta : Z) (w : World)
        (kind : Event -> bool) :
  exists v1 t1 v2 t2,
    minimax depth maximizingPlayer alpha beta w
    = Ok v1 (mkWorld (live w) (trace w ++ t1))
    /\ exhaustiveMinimax depth maximizingPlayer w
       = Ok v2 (mkWorld (live w) (trace w ++ t2))
    /\ (calls kind t1 <= calls kind t2)%nat.
Proof.
  destruct w as [g tr].
  exists (searchValue depth maximizingPlayer alpha beta g),
         (searchTrace depth maximizingPlayer alpha beta g),
         (fullValue depth maximizingPlayer g),
         (fullTrace depth maximizingPlayer g).
  split; [apply (minimax_trace laws)|].
  split; [apply (exhaustiveMinimax_trace laws)|].
  apply searchTrace_calls_le.
Qed.

(** X14. A call of [minimax] at depth [depth] never has more than
    [depth] moves applied and not yet undone on the live position, at
    any point of its run, and it has none when it returns. *)
Theorem search_holds_at_most_depth_moves (laws : Lawful E) (depth : nat)
        (maximizingPlayer : bool) (alpha beta : Z) (w : World) :
  exists v t,
    minimax depth maximizingPlayer alpha beta w
    = Ok v (mkWorld (live w) (trace w ++ t))
    /\ balanced t
    /\ (peak 0 t <= depth)%nat.
Proof.
  destruct w as [g tr].
  exists (searchValue depth maximizingPlayer alpha beta g),
         (searchTrace depth maximizingPlayer alpha beta g).
  split; [apply (minimax_trace laws)|]. split.
  - apply searchTrace_pending.
  - apply (searchTrace_peak depth maximizingPlayer alpha beta g 0).
Qed.

(** X15. [makeAIMove] always ends normally, whatever the position, the
    move index and the opening line: no exception of the rules engine
    reaches its caller.  Everything it tries on the live position before
    it plays is undone, with never more than [difficultyDepth] moves
    pending, and when it ends the live position is either the one it was
    called on (game over, or no move chosen) or exactly one accepted
    move away from it, that move being the one it reports. *)
Theorem makeAIMove_ends_at_most_one_move_away (laws : Lawful E)
        (difficulty : Difficulty) (moveCount : nat)
        (selectedOpening : list string) (w : World) :
  exists o w' t,
    makeAIMove difficulty moveCount selectedOpening w = Ok o w'
    /\ balanced t
    /\ (peak 0 t <= difficultyDepth difficulty)%nat
    /\ match chosenMove o with
       | Some m =>
           (exists a, move (live w) a = Some (m, live w'))
           /\ trace w' = trace w ++ t ++ [EvMove (san m)]
       | None => live w' = live w /\ trace w' = trace w ++ t
       end.
Proof.
  unfold makeAIMove, bind at 1, getLive.
  destruct (isGameOver (live w) || isDraw (live w)
            || (List.length (moves (live w)) =? 0)%nat).
  - exists GameOver, w, []. rewrite app_nil_r.
    split; [reflexivity | split; [apply balanced_nil | split]].
    + apply Nat.le_0_l.
    + split; reflexivity.
  - unfold bind at 1.
    destruct (bookAttempt_runs moveCount selectedOpening w)
      as [[m [g' [Hmove [_ Hbook]]]] | Hbook]; rewrite Hbook.
    + exists (BookMove m), (mkWorld g' (trace w ++ [EvMove (san m)])), [].
      split; [reflexivity | split; [apply balanced_nil | split]].
      * apply Nat.le_0_l.
      * split; [|reflexivity]. eexists. exact Hmove.
    + destruct w as [g tr]. cbn [live trace].
      destruct (rootLoop_trace_bounds difficulty g (moves g) []
                  eq_refl (Nat.le_0_l _)) as [Hbal Hpeak].
      rewrite app_nil_r in Hbal, Hpeak.
      destruct (searchSelect_trace laws difficulty g tr)
        as [[m [g' [_ [Hobj Hrun]]]] | Hrun]; rewrite Hrun.
      * exists (SearchMove m). eexists.
        exists (flat_map (rootTrace difficulty g) (moves g)).
        split; [reflexivity | split; [exact Hbal | split; [exact Hpeak|]]].
        split; [|reflexivity]. eexists. exact Hobj.
      * exists NoMove. eexists.
        exists (flat_map (rootTrace difficulty g) (moves g)).
        split; [reflexivity | split; [exact Hbal | split; [exact Hpeak|]]].
        split; reflexivity.
Qed.


(** X17. A candidate that leaves the opponent without a legal move is
    scored without looking at the position it leads to, at difficulty
    intermediate and hard: its score is exactly 9999, the sentinel of the
    minimizing search, for a checkmate and for a stalemate alike, and
    the endgame bonus adds nothing.  At difficulty easy its score is the
    evaluation of that position. *)
Theorem candidate_that_leaves_no_move_scores_the_sentinel (laws : Lawful E)
        (difficulty : Difficulty) (w : World) (m : Move) :
  In m (moves (live w)) ->
  moves (after (live w) (ByObject m)) = [] ->
  resultValue (rootValue difficulty (difficultyDepth difficulty) m w)
  = Some (match difficulty with
          | easy => evaluateBoard (after (live w) (ByObject m))
          | intermediate | hard => 9999
          end).
Proof.
  intros Hm Hnone. destruct w as [g tr]. cbn [live] in *.
  rewrite (rootValue_trace laws difficulty m g tr Hm).
  cbn [resultValue]. f_equal. unfold rootScore. cbv zeta.
  rewrite (bonusValue_without_moves laws difficulty _ m Hnone), Z.add_0_r.
  destruct difficulty; cbn [difficultyDepth Nat.sub].
  - reflexivity.
  - apply searchValue_without_moves, Hnone.
  - apply searchValue_without_moves, Hnone.
Qed.

(** X18. At difficulty hard [makeAIMove] never leaves the user waiting:
    whenever the game is not over it plays a move, from the opening book
    or from the search. *)
Theorem hard_makeAIMove_always_moves (laws : Lawful E) (moveCount : nat)
        (selectedOpening : list string) (w : World) :
  gameIsOver (live w) = false ->
  exists o w' m,
    makeAIMove hard moveCount selectedOpening w = Ok o w'
    /\ chosenMove o = Some m.
Proof.
  intro Hover. unfold gameIsOver in Hover.
  unfold makeAIMove, bind at 1, getLive. rewrite Hover.
  apply orb_false_elim in Hover. destruct Hover as [_ Hlen].
  unfold bind at 1.
  destruct (bookAttempt_runs moveCount selectedOpening w)
    as [[m [g' [_ [_ Hbook]]]] | Hbook]; rewrite Hbook.
  - exists (BookMove m), (mkWorld g' (trace w ++ [EvMove (san m)])), m.
    split; reflexivity.
  - destruct w as [g tr]. cbn [live] in *.
    destruct (searchSelect_runs laws hard g tr)
      as [o [w' [Hs [[_ Hlow] | [m [-> _]]]]]].
    + destruct (moves g) as [|x l] eqn:Hmoves; [discriminate Hlen|].
      specialize (Hlow x (or_introl eq_refl)).
      pose proof (rootScore_hard_floor g x). lia.
    + exists (SearchMove m), w', m. split; [exact Hs | reflexivity].
Qed.

End Coverage.

(** [backRank] and the same position seen from the other side. *)
Lemma evaluateBoard_of_the_mirrored_position_witness :
  evaluateBoard (gameAt backRankMirror) - flatTerms (gameAt backRankMirror)
  = - (evaluateBoard (gameAt backRank) - flatTerms (gameAt backRank)).
Proof.
  apply (evaluateBoard_of_the_mirrored_position (gameAt backRank)
           (gameAt backRankMirror)).
  intros i j Hi Hj.
  do 8 (destruct i as [|i];
        [do 8 (destruct j as [|j]; [vm_compute; reflexivity|]); lia|]).
  lia.
Defined.

(** Depth 2 on [onlyMate]. *)
Lemma minimax_stays_between_the_sentinels_witness :
  exists v,
    resultValue (minimax 2 true (-10000) 10000 (fresh onlyMate)) = Some v
    /\ -9999 <= v
    /\ (1%nat <> 0%nat -> -9999 <= v <= 9999).
Proof.
  exact (minimax_stays_between_the_sentinels tree_lawful 1 true (-10000)
           10000 (fresh onlyMate)).
Defined.

(** Depth 2 on [quietEnding]: sixteen leaves, with evaluations from -5
    to 5. *)
Lemma minimax_is_the_minimax_value_witness :
  resultValue (minimax 2 true (-10000) 10000 (fresh quietEnding))
  = Some (minimaxValue 2 true (live (fresh quietEnding))).
Proof.
  apply (minimax_is_the_minimax_value tree_lawful 2 true
           (fresh quietEnding)).
  vm_compute. reflexivity.
Defined.

(** The evaluations at depth 1 on [twoMates], where the first reply
    already cuts the enumeration. *)
Lemma pruning_never_adds_calls_witness :
  exists v1 t1 v2 t2,
    minimax 1 true (-10000) 10000 (fresh twoMates)
    = Ok v1 (mkWorld (live (fresh twoMates))
                     (trace (fresh twoMates) ++ t1))
    /\ exhaustiveMinimax 1 true (fresh twoMates)
       = Ok v2 (mkWorld (live (fresh twoMates))
                        (trace (fresh twoMates) ++ t2))
    /\ (calls isEvaluate t1 <= calls isEvaluate t2)%nat.
Proof.
  exact (pruning_never_adds_calls tree_lawful 1 true (-10000) 10000
           (fresh twoMates) isEvaluate).
Defined.

(** Depth 2 on [onlyMate]. *)
Lemma search_holds_at_most_depth_moves_witness :
  exists v t,
    minimax 2 true (-10000) 10000 (fresh onlyMate)
    = Ok v (mkWorld (live (fresh onlyMate)) (trace (fresh onlyMate) ++ t))
    /\ balanced t
    /\ (peak 0 t <= 2)%nat.
Proof.
  exact (search_holds_at_most_depth_moves tree_lawful 2 true (-10000) 10000
           (fresh onlyMate)).
Defined.

(** [makeAIMove] on [onlyMate] at difficulty hard, past the opening. *)
Lemma makeAIMove_ends_at_most_one_move_away_witness :
  exists o w' t,
    makeAIMove hard 40 ["d4"; "d5"; "c4"] (fresh onlyMate) = Ok o w'
    /\ balanced t
    /\ (peak 0 t <= difficultyDepth hard)%nat
    /\ match chosenMove o with
       | Some m =>
           (exists a, move (live (fresh onlyMate)) a = Some (m, live w'))
           /\ trace w' = trace (fresh onlyMate) ++ t ++ [EvMove (san m)]
       | None =>
           live w' = live (fresh onlyMate)
           /\ trace w' = trace (fresh onlyMate) ++ t
       end.
Proof.
  exact (makeAIMove_ends_at_most_one_move_away tree_lawful hard 40
           ["d4"; "d5"; "c4"] (fresh onlyMate)).
Defined.


(** [Rxe1#] on [onlyMate] leaves White checkmated. *)
Lemma candidate_that_leaves_no_move_scores_the_sentinel_witness :
  resultValue (rootValue hard (difficultyDepth hard) (sanMove "Rxe1#")
                         (fresh onlyMate))
  = Some 9999.
Proof.
  apply (candidate_that_leaves_no_move_scores_the_sentinel tree_lawful hard
           (fresh onlyMate) (sanMove "Rxe1#")).
  - left. reflexivity.
  - reflexivity.
Defined.

(** [makeAIMove] on [onlyMate] at difficulty hard, past the opening. *)
Lemma hard_makeAIMove_always_moves_witness :
  exists o w' m,
    makeAIMove hard 40 ["d4"; "d5"; "c4"] (fresh onlyMate) = Ok o w'
    /\ chosenMove o = Some m.
Proof.
  apply (hard_makeAIMove_always_moves tree_lawful 40 ["d4"; "d5"; "c4"]
           (fresh onlyMate)).
  reflexivity.
Defined.
